(** * openai-proxy: the event-stream parser and the forwarding decision

    A shallow embedding of [src/main.py]: the [SSEClient] class (frame
    reassembly in [_read], field decoding in [events]), the [Event] class,
    [log_response] and the [proxy] handler, with the Python built-ins they
    call written out ([bytes.splitlines], [bytes.endswith], the strict
    UTF-8 codec, [str.split], [str.strip], truthiness). *)

From Stdlib Require Import List NArith ZArith Lia Bool.
From Stdlib Require Import Strings.String Strings.Ascii Strings.Byte.
From Stdlib Require Import SpecFloat.
Import ListNotations.

Set Implicit Arguments.

(** ** Python built-ins on [bytes] *)

Module Py.

(** A Python [bytes] object. *)
Definition bytes := list byte.

(** A Python [str]: a sequence of Unicode code points. *)
Definition str := list N.

Definition LF : byte := x0a.
Definition CR : byte := x0d.

(** The [str] ['\n']. *)
Definition NL : str := [10%N].

(** ASCII text as [bytes] and as [str], for literals. *)
Definition b (s : string) : bytes := list_byte_of_string s.
Definition u (s : string) : str := map Byte.to_N (list_byte_of_string s).

(** [x == y] on sequences, from the equality test of their items. *)
Fixpoint seq_eqb {A} (eqb : A -> A -> bool) (x y : list A) : bool :=
  match x, y with
  | [], [] => true
  | a :: x', c :: y' => eqb a c && seq_eqb eqb x' y'
  | _, _ => false
  end.

Definition bytes_eqb : bytes -> bytes -> bool := seq_eqb Byte.eqb.

Definition str_eqb : str -> str -> bool := seq_eqb N.eqb.

(** [len(x) > 0], the truth value of a sequence. *)
Definition nonempty {A} (x : list A) : bool :=
  match x with [] => false | _ :: _ => true end.

(** [x.endswith(suffix)] for one suffix. *)
Definition endswith1 (x suffix : bytes) : bool :=
  bytes_eqb (skipn (List.length x - List.length suffix) x) suffix.

(** [x.endswith((s1, s2, ...))]: true when one of the suffixes matches. *)
Definition endswith (x : bytes) (suffixes : list bytes) : bool :=
  existsb (endswith1 x) suffixes.

Arguments endswith : simpl never.

(** [bytes.splitlines(keepends)]: lines end at [\n], [\r] or [\r\n]; a
    final line with no terminator is kept when it is not empty.  [cur]
    holds the bytes of the line being read. *)
Fixpoint splitlines_from (keepends : bool) (cur : bytes) (s : bytes) : list bytes :=
  match s with
  | [] => if nonempty cur then [cur] else []
  | c :: s' =>
      if Byte.eqb c LF then
        (cur ++ (if keepends then [c] else [])) :: splitlines_from keepends [] s'
      else if Byte.eqb c CR then
        match s' with
        | d :: s'' =>
            if Byte.eqb d LF then
              (cur ++ (if keepends then [c; d] else [])) :: splitlines_from keepends [] s''
            else
              (cur ++ (if keepends then [c] else [])) :: splitlines_from keepends [] s'
        | [] => [cur ++ (if keepends then [c] else [])]
        end
      else splitlines_from keepends (cur ++ [c]) s'
  end.

Definition splitlines (keepends : bool) (s : bytes) : list bytes :=
  splitlines_from keepends [] s.

(** *** The UTF-8 codec, [errors='strict'] *)

(** A continuation byte, [10xxxxxx]. *)
Definition is_cont (c : byte) : bool :=
  let n := Byte.to_N c in (0x80 <=? n)%N && (n <=? 0xBF)%N.

(** The six payload bits of a continuation byte. *)
Definition cont_bits (c : byte) : N := N.land (Byte.to_N c) 0x3F.

(** [s.decode('utf-8')]: [None] stands for [UnicodeDecodeError].  Overlong
    forms, surrogates, code points above U+10FFFF, stray continuation bytes
    and truncated sequences are all errors. *)
Fixpoint decode (s : bytes) : option str :=
  match s with
  | [] => Some []
  | c0 :: s1 =>
      let n0 := Byte.to_N c0 in
      if (n0 <? 0x80)%N then option_map (cons n0) (decode s1)
      else if (n0 <? 0xC2)%N then None
      else if (n0 <? 0xE0)%N then
        match s1 with
        | c1 :: s2 =>
            if is_cont c1 then
              option_map
                (cons (N.lor (N.shiftl (N.land n0 0x1F) 6) (cont_bits c1)))
                (decode s2)
            else None
        | _ => None
        end
      else if (n0 <? 0xF0)%N then
        match s1 with
        | c1 :: c2 :: s3 =>
            let n1 := Byte.to_N c1 in
            if is_cont c1 && is_cont c2
               && negb ((n0 =? 0xE0)%N && (n1 <? 0xA0)%N)
               && negb ((n0 =? 0xED)%N && (0xA0 <=? n1)%N) then
              option_map
                (cons (N.lor (N.shiftl (N.land n0 0x0F) 12)
                         (N.lor (N.shiftl (cont_bits c1) 6) (cont_bits c2))))
                (decode s3)
            else None
        | _ => None
        end
      else if (n0 <? 0xF5)%N then
        match s1 with
        | c1 :: c2 :: c3 :: s4 =>
            let n1 := Byte.to_N c1 in
            if is_cont c1 && is_cont c2 && is_cont c3
               && negb ((n0 =? 0xF0)%N && (n1 <? 0x90)%N)
               && negb ((n0 =? 0xF4)%N && (0x90 <=? n1)%N) then
              option_map
                (cons (N.lor (N.shiftl (N.land n0 0x07) 18)
                         (N.lor (N.shiftl (cont_bits c1) 12)
                            (N.lor (N.shiftl (cont_bits c2) 6) (cont_bits c3)))))
                (decode s4)
            else None
        | _ => None
        end
      else None
  end.

(** The bytes of one code point; [None] for a surrogate or a value that is
    no code point. *)
Definition encode_char (c : N) : option bytes :=
  let byte_of (n : N) := match Byte.of_N n with Some x => x | None => x00 end in
  let cont (n : N) := byte_of (N.lor 0x80 (N.land n 0x3F)) in
  if (c <? 0x80)%N then Some [byte_of c]
  else if (c <? 0x800)%N then
    Some [byte_of (N.lor 0xC0 (N.shiftr c 6)); cont c]
  else if (0xD800 <=? c)%N && (c <=? 0xDFFF)%N then None
  else if (c <? 0x10000)%N then
    Some [byte_of (N.lor 0xE0 (N.shiftr c 12)); cont (N.shiftr c 6); cont c]
  else if (c <? 0x110000)%N then
    Some [byte_of (N.lor 0xF0 (N.shiftr c 18)); cont (N.shiftr c 12);
          cont (N.shiftr c 6); cont c]
  else None.

(** [s.encode('utf-8')]: [None] stands for [UnicodeEncodeError]. *)
Fixpoint encode (s : str) : option bytes :=
  match s with
  | [] => Some []
  | c :: s' =>
      match encode_char c, encode s' with
      | Some x, Some y => Some (x ++ y)
      | _, _ => None
      end
  end.

(** *** Built-ins on [str] *)

(** [c.isspace()] for one code point: the ASCII table of CPython, then
    the other code points of Unicode's White_Space property. *)
Definition isspace (c : N) : bool :=
  ((0x09 <=? c) && (c <=? 0x0D) || (0x1C <=? c) && (c <=? 0x20)
   || (c =? 0x85) || (c =? 0xA0) || (c =? 0x1680)
   || (0x2000 <=? c) && (c <=? 0x200A)
   || (c =? 0x2028) || (c =? 0x2029) || (c =? 0x202F) || (c =? 0x205F)
   || (c =? 0x3000))%N.

Fixpoint lstrip (s : str) : str :=
  match s with
  | c :: s' => if isspace c then lstrip s' else s
  | [] => []
  end.

(** [s.strip()]: leading and trailing whitespace removed. *)
Definition strip (s : str) : str := rev (lstrip (rev (lstrip s))).

(** [s.startswith(prefix)]. *)
Fixpoint startswith (s prefix : str) : bool :=
  match prefix, s with
  | [], _ => true
  | p :: prefix', c :: s' => (c =? p)%N && startswith s' prefix'
  | _ :: _, [] => false
  end.

(** [s.endswith(suffix)] on [str]. *)
Definition str_endswith (s suffix : str) : bool :=
  str_eqb (skipn (List.length s - List.length suffix) s) suffix.

(** [s.split(sep, 1)] for a one-character separator: the text before the
    first separator, and the text after it when there is a separator (the
    list has one item or two). *)
Fixpoint split1 (sep : N) (s : str) : str * option str :=
  match s with
  | [] => ([], None)
  | c :: s' =>
      if (c =? sep)%N then ([], Some s')
      else let (head, rest) := split1 sep s' in (c :: head, rest)
  end.

(** [s[0:-1]]. *)
Definition drop_last (s : str) : str := removelast s.


(** *** Built-ins on header text

    Header names and values reach the program as [str] objects decoded
    from ISO-8859-1, one code point per byte: Rocq's [string]. *)

(** [c.lower()] on a Latin-1 character. *)
Definition lower_char (c : ascii) : ascii :=
  let n := N_of_ascii c in
  if ((65 <=? n) && (n <=? 90)
      || (192 <=? n) && (n <=? 222) && negb (n =? 215))%N
  then ascii_of_N (n + 32) else c.

(** [s.lower()]. *)
Fixpoint lower (s : string) : string :=
  match s with
  | EmptyString => EmptyString
  | String c s' => String (lower_char c) (lower s')
  end.

(** [x in names] for a list of [str]. *)
Definition mem (x : string) (names : list string) : bool :=
  existsb (String.eqb x) names.

(** [s.replace(old, new)] for a non-empty [old]: [skip] characters of a
    match just replaced are still to be passed over. *)
Fixpoint replace_from (old new : string) (skip : nat) (s : string) : string :=
  match s with
  | EmptyString => EmptyString
  | String c s' =>
      match skip with
      | S k => replace_from old new k s'
      | O =>
          if String.prefix old s then
            String.append new (replace_from old new (String.length old - 1) s')
          else String c (replace_from old new 0 s')
      end
  end.

(** [s.replace('', new)]: [new] before every character and at the end. *)
Fixpoint intersperse (new s : string) : string :=
  match s with
  | EmptyString => new
  | String c s' => String.append new (String c (intersperse new s'))
  end.

Definition replace (s old new : string) : string :=
  match old with
  | EmptyString => intersperse new s
  | String _ _ => replace_from old new 0 s
  end.

(** *** A [dict] with [str] keys, in insertion order *)

Definition dict (V : Type) := list (string * V).

(** [d[k] = v]: the value of a present key is replaced where it stands, a
    new key goes last. *)
Fixpoint dict_set {V} (d : dict V) (k : string) (v : V) : dict V :=
  match d with
  | [] => [(k, v)]
  | (k', v') :: d' =>
      if String.eqb k' k then (k', v) :: d' else (k', v') :: dict_set d' k v
  end.

(** [d.get(k)]. *)
Fixpoint dict_get {V} (d : dict V) (k : string) : option V :=
  match d with
  | [] => None
  | (k', v') :: d' => if String.eqb k' k then Some v' else dict_get d' k
  end.

(** [{k: v for k, v in items if keep(k)}]. *)
Definition dict_of_items {V} (keep : string -> bool) (items : list (string * V)) : dict V :=
  fold_left (fun d kv => if keep (fst kv) then dict_set d (fst kv) (snd kv) else d)
    items [].

End Py.

Import Py.

(** ** class Event *)

(** What an attribute of an [Event] holds: [None], a [str], or an [int]
    (a caller of [Event(retry=...)] may pass one; [events] never does). *)
Inductive value : Type :=
| PyNone
| PyStr (s : str)
| PyInt (z : Z).

(** The instance dictionary of an [Event], one field per key. *)
Record Event : Type := mkEvent {
  id : value;
  event : str;
  data : str;
  retry : value
}.

Module EventClass.

(** [Event()]: the defaults of [__init__] (line 119). *)
Definition init : Event :=
  {| id := PyNone; event := u "message"; data := []; retry := PyNone |}.

(** [field in event.__dict__]. *)
Definition has_key (field : str) : bool :=
  str_eqb field (u "id") || str_eqb field (u "event")
  || str_eqb field (u "data") || str_eqb field (u "retry").

(** [event.__dict__[field] = value], for a key of the dictionary. *)
Definition set_item (e : Event) (field : str) (v : str) : Event :=
  if str_eqb field (u "id") then
    {| id := PyStr v; event := event e; data := data e; retry := retry e |}
  else if str_eqb field (u "event") then
    {| id := id e; event := v; data := data e; retry := retry e |}
  else if str_eqb field (u "data") then
    {| id := id e; event := event e; data := v; retry := retry e |}
  else if str_eqb field (u "retry") then
    {| id := id e; event := event e; data := data e; retry := PyStr v |}
  else e.

End EventClass.

(** ** class SSEClient *)

Module SSEClient.

(** The three delimiters tested at line 48. *)
Definition delimiters : list bytes :=
  [[CR; CR]; [LF; LF]; [CR; LF; CR; LF]].

(** The inner loop of [_read] (lines 46-50) over the lines of one chunk:
    the frames yielded, and the buffer [data] left for the next chunk. *)
Fixpoint read_lines (data : bytes) (lines : list bytes) : list bytes * bytes :=
  match lines with
  | [] => ([], data)
  | line :: rest =>
      let data := data ++ line in
      if endswith data delimiters then
        let (frames, data') := read_lines [] rest in (data :: frames, data')
      else read_lines data rest
  end.

(** The outer loop of [_read] (lines 45-52), started with buffer [data]. *)
Fixpoint read_from (data : bytes) (event_source : list bytes) : list bytes :=
  match event_source with
  | [] => if nonempty data then [data] else []
  | chunk :: rest =>
      let (frames, data') := read_lines data (splitlines true chunk) in
      frames ++ read_from data' rest
  end.

(** [SSEClient._read]: the frames yielded for the chunks of the source. *)
Definition _read (event_source : list bytes) : list bytes :=
  read_from [] event_source.

(** One pass of the line loop of [events] (lines 60-94) on a decoded line. *)
Definition process_line (e : Event) (line : str) : Event :=
  if negb (nonempty (strip line)) || startswith line (u ":") then e
  else
    let data_ := split1 58 line in
    let field := fst data_ in
    if negb (EventClass.has_key field) then e
    else
      let value :=
        match snd data_ with
        | Some rest => if startswith rest (u " ") then tl rest else rest
        | None => []
        end in
      if str_eqb field (u "data") then
        EventClass.set_item e field (data e ++ (value ++ NL))
      else EventClass.set_item e field value.

(** The line loop of [events] (lines 58-94): each line is decoded, then
    processed; [None] when a line is not valid UTF-8 and [decode] raises. *)
Fixpoint process_lines (e : Event) (lines : list bytes) : option Event :=
  match lines with
  | [] => Some e
  | line :: rest =>
      match decode line with
      | Some line' => process_lines (process_line e line') rest
      | None => None
      end
  end.

(** Lines 96-109: the event yielded after the line loop, if one is. *)
Definition dispatch (e : Event) : option Event :=
  if negb (nonempty (data e)) then None
  else
    let data' :=
      if str_endswith (data e) (NL) then drop_last (data e)
      else data e in
    Some {| id := id e;
            event := if nonempty (event e) then event e else u "message";
            data := data';
            retry := retry e |}.

(** The body of the loop of [events] for one frame: [None] when decoding
    raises, [Some None] when nothing is yielded, [Some (Some e)] when [e]
    is. *)
Definition event_of_chunk (chunk : bytes) : option (option Event) :=
  option_map dispatch (process_lines EventClass.init (splitlines false chunk)).

(** How a generator ends: exhausted, or by an exception that leaves it. *)
Inductive ending : Type := Exhausted | Raised.

(** The loop of [events] over the frames of [_read]. *)
Fixpoint events_of (frames : list bytes) : list Event * ending :=
  match frames with
  | [] => ([], Exhausted)
  | chunk :: rest =>
      match event_of_chunk chunk with
      | None => ([], Raised)
      | Some None => events_of rest
      | Some (Some e) => let (es, r) := events_of rest in (e :: es, r)
      end
  end.

(** [SSEClient.events]: the events yielded, and how the generator ends. *)
Definition events (event_source : list bytes) : list Event * ending :=
  events_of (_read event_source).

End SSEClient.


(** ** JSON values, as [request.get_json()] returns them *)

Module Json.

#[warnings="-register-all"]
Inductive t : Type :=
| Null
| Bool (x : bool)
| Int (z : Z)
| Float (f : spec_float)
| Str (s : str)
| Arr (items : list t)
| Obj (members : list (str * t)).

(** [members.get(key)] on the dictionary built from the members of an
    object in document order: a later member with the same key replaces
    an earlier one. *)
Fixpoint get (members : list (str * t)) (key : str) : option t :=
  match members with
  | [] => None
  | (k, v) :: rest =>
      match get rest key with
      | Some v' => Some v'
      | None => if str_eqb k key then Some v else None
      end
  end.

(** [bool(v)], Python's truth value. *)
Definition truthy (v : t) : bool :=
  match v with
  | Null => false
  | Bool x => x
  | Int z => negb (z =? 0)%Z
  | Float f => match f with S754_zero _ => false | _ => true end
  | Str s => nonempty s
  | Arr items => nonempty items
  | Obj members => nonempty members
  end.

End Json.

(** ** The forwarder *)

(** The inbound [flask.request], as far as [proxy] reads it. *)
Record Request : Type := mkRequest {
  method : string;
  url : string;
  host_url : string;
  headers : list (string * string);
  get_data : bytes;
  (** [request.get_json()]: [None] when the call raises (the body is not
      JSON, or not declared as JSON). *)
  get_json : option Json.t
}.

(** The arguments of [requests.Request(...)] at lines 233-238. *)
Record OutboundRequest : Type := mkOutbound {
  out_method : string;
  out_url : string;
  out_headers : dict string;
  out_data : bytes
}.

(** The upstream [requests.Response], as far as the program reads it. *)
Record Response : Type := mkResponse {
  status_code : Z;
  (** [response.raw.headers.items()]: every header line, in order. *)
  raw_headers : list (string * string);
  (** [response.content]: the body as requests hands it over.  For an
      answer sent with a content encoding requests knows, these are the
      bytes after requests has undone that encoding, not the bytes of the
      wire. *)
  content : bytes;
  (** The chunks that iterating over the response yields. *)
  iter_content : list bytes
}.

(** What [proxy] returns to Flask. *)
Inductive FlaskResponse : Type :=
| Buffered (body : bytes) (status : Z) (headers : list (string * string))
| EventStream (parts : list str) (r : SSEClient.ending).

(** The exceptions that leave [proxy]. *)
Inductive exn : Type := TransportError | DecompressError.

Inductive result (A : Type) : Type :=
| Ok (a : A)
| Raise (e : exn).

Arguments Ok {A} a.
Arguments Raise {A} e.

Definition IGNORE_REQUEST_HEADERS : list string :=
  ["Host"; "Accept-Encoding"]%string.

Definition excluded_headers : list string :=
  ["content-length"; "connection"]%string.

(** Lines 221-225: the [stream] variable.  A body that is not JSON, a JSON
    value that is no object ([.get] is missing) and an object with no
    [stream] member all leave it [None]. *)
Definition stream_of (request : Request) : Json.t :=
  match get_json request with
  | Some (Json.Obj members) =>
      match Json.get members (u "stream") with
      | Some v => v
      | None => Json.Null
      end
  | _ => Json.Null
  end.

(** Lines 220 and 228-238: the outbound request. *)
Definition outbound (request : Request) : OutboundRequest :=
  {| out_method := method request;
     out_url := replace (url request) (host_url request) "https://api.openai.com/";
     out_headers :=
       dict_of_items (fun key => negb (mem key IGNORE_REQUEST_HEADERS))
         (headers request);
     out_data := get_data request |}.

(** Lines 249-253: the headers relayed with a buffered response. *)
Definition relayed_headers (resp : Response) : list (string * string) :=
  filter (fun nv => negb (mem (lower (fst nv)) excluded_headers))
    (raw_headers resp).

(** Line 260: the text sent to the inbound caller for one event. *)
Definition emit (e : Event) : str := u "data: " ++ data e ++ NL ++ NL.

(** Lines 257-260: the strings [stream_generate] yields. *)
Definition stream_generate (resp : Response) : list str * SSEClient.ending :=
  let (es, r) := SSEClient.events (iter_content resp) in (map emit es, r).

Module Forwarder.

Section Env.

(** The library decompressors: [None] when the call raises. *)
Variable brotli_decompress : bytes -> option bytes.
Variable gzip_decompress : bytes -> option bytes.
Variable zlib_decompress : bytes -> option bytes.

(** [req.prepare()] and [session.send(prepared_req, stream=stream,
    allow_redirects=False)] (lines 240-244), on the arguments of the
    request and the [stream] value: [None] when a call raises, as
    [send] does on a connection that fails and, reading the body of a
    non-streaming exchange, on a body it cannot decode. *)
Variable send : OutboundRequest -> Json.t -> option Response.

(** Lines 180-190 of [log_response]: the decompressed body for the value
    of [headers_dict.get('content-encoding')], or [None] when the
    decompressor raises. *)
Definition decompress (content_encoding : option string) (body : bytes) : option bytes :=
  match content_encoding with
  | Some enc =>
      if String.eqb enc "br" then brotli_decompress body
      else if String.eqb enc "gzip" then gzip_decompress body
      else if String.eqb enc "deflate" then zlib_decompress body
      else Some body
  | None => Some body
  end.

(** [log_response] (lines 164-195): the decompressed body that is written
    to the log, or [None] when decompression raises. *)
Definition log_response (response : Response) : option bytes :=
  let headers_dict :=
    fold_left (fun d kv => dict_set d (lower (fst kv)) (snd kv))
      (raw_headers response) [] in
  let content_encoding := dict_get headers_dict "content-encoding" in
  let body := content response in
  decompress content_encoding body.

(** [proxy] (lines 217-261). *)
Definition proxy (request : Request) : result FlaskResponse :=
  let stream := stream_of request in
  match send (outbound request) stream with
  | None => Raise TransportError
  | Some resp =>
      match log_response resp with
      | None => Raise DecompressError
      | Some _ =>
          if negb (Json.truthy stream) then
            Ok (Buffered (content resp) (status_code resp) (relayed_headers resp))
          else
            let (parts, r) := stream_generate resp in Ok (EventStream parts r)
      end
  end.

End Env.

End Forwarder.

(** ** Vocabulary of the statements *)

Module Frame.

(** [all(...)] over the lines of a frame: the decoded lines, or [None]
    when one of them is not valid UTF-8. *)
Fixpoint decode_all (lines : list bytes) : option (list str) :=
  match lines with
  | [] => Some []
  | l :: rest =>
      match decode l, decode_all rest with
      | Some l', Some rest' => Some (l' :: rest')
      | _, _ => None
      end
  end.

(** The decoded physical lines of a frame. *)
Definition decoded_lines (chunk : bytes) : option (list str) :=
  decode_all (splitlines false chunk).

(** The field name and the value of a line that names one of the four
    fields; [None] for a blank line, a comment and an unknown field. *)
Definition field_value (line : str) : option (str * str) :=
  if negb (nonempty (strip line)) || startswith line (u ":") then None
  else
    let (field, rest) := split1 58 line in
    if EventClass.has_key field then
      Some (field,
            match rest with
            | Some r => if startswith r (u " ") then tl r else r
            | None => []
            end)
    else None.

(** What a line that names field [f] with value [v] does to the event under
    construction (lines 91-94). *)
Definition assign (e : Event) (f v : str) : Event :=
  if str_eqb f (u "data") then EventClass.set_item e f (data e ++ (v ++ NL))
  else EventClass.set_item e f v.

(** The values of the lines of a frame that name [field], in order. *)
Fixpoint values_of (field : str) (lines : list str) : list str :=
  match lines with
  | [] => []
  | l :: rest =>
      match field_value l with
      | Some (f, v) =>
          if str_eqb f field then v :: values_of field rest
          else values_of field rest
      | None => values_of field rest
      end
  end.

(** [sep.join(items)]. *)
Fixpoint join (sep : str) (items : list str) : str :=
  match items with
  | [] => []
  | [x] => x
  | x :: rest => x ++ sep ++ join sep rest
  end.

(** The last item of a list, if there is one. *)
Fixpoint last_of (items : list str) : option str :=
  match items with
  | [] => None
  | x :: rest =>
      match last_of rest with
      | Some y => Some y
      | None => Some x
      end
  end.

(** The value of the last header line whose name is [name] when lowered. *)
Fixpoint last_header (name : string) (items : list (string * string)) : option string :=
  match items with
  | [] => None
  | (k, v) :: rest =>
      match last_header name rest with
      | Some v' => Some v'
      | None => if String.eqb (lower k) name then Some v else None
      end
  end.

(** The content encoding an upstream response declares. *)
Definition declared_encoding (resp : Response) : option string :=
  last_header "content-encoding" (raw_headers resp).

(** The reassembler fed one byte at a time from buffer [data]: the frames
    yielded and the buffer left. *)
Definition feed (data : bytes) (s : bytes) : list bytes * bytes :=
  SSEClient.read_lines data (map (fun c => [c]) s).

(** The end of [_read]: the frames yielded, then the rest of the buffer
    when it is not empty. *)
Definition finish (r : list bytes * bytes) : list bytes :=
  fst r ++ (if nonempty (snd r) then [snd r] else []).

(** [s] starts with [\r\r\n]. *)
Definition starts_crcrlf (s : bytes) : bool :=
  match s with
  | c1 :: c2 :: c3 :: _ => Byte.eqb c1 CR && Byte.eqb c2 CR && Byte.eqb c3 LF
  | _ => false
  end.

(** [b'\r\r\n' in s]. *)
Fixpoint has_crcrlf (s : bytes) : bool :=
  match s with
  | [] => false
  | _ :: s' => starts_crcrlf s || has_crcrlf s'
  end.

(** A byte that ends no line. *)
Definition plain (c : byte) : Prop := c <> CR /\ c <> LF.

(** A frame is terminated when it ends with one of the delimiters. *)
Definition terminated (frame : bytes) : Prop :=
  endswith frame SSEClient.delimiters = true.

End Frame.

(** ** Closed inputs used by the examples *)

Module Fixture.

Definition quote : bytes := [x22].

(** Stand-ins for the three library decompressors: each checks the magic
    bytes its format starts with, as the library does first, and raises
    on anything else. *)
Definition gzip_stub (body : bytes) : option bytes :=
  match body with
  | x1f :: x8b :: payload => Some payload
  | _ => None
  end.

Definition zlib_stub (body : bytes) : option bytes :=
  match body with
  | x78 :: _ :: payload => Some payload
  | _ => None
  end.

Definition brotli_stub (body : bytes) : option bytes :=
  match body with
  | [] => None
  | _ :: payload => Some payload
  end.

(** An upstream that answers every request with [resp]. *)
Definition upstream (resp : Response) : OutboundRequest -> Json.t -> option Response :=
  fun _ _ => Some resp.

(** A POST of a JSON body, with what [get_json] returns for it. *)
Definition post (body : bytes) (json : option Json.t) : Request :=
  {| method := "POST";
     url := "http://proxy.example/v1/chat";
     host_url := "http://proxy.example/";
     headers := [("Host", "proxy.example"); ("Content-Type", "application/json")]%string;
     get_data := body;
     get_json := json |}.

(** The request [{"stream": v}]. *)
Definition post_stream (text : string) (v : Json.t) : Request :=
  post (b "{" ++ quote ++ b "stream" ++ quote ++ b ": " ++ b text ++ b "}")
       (Some (Json.Obj [(u "stream", v)])).


(** The [requests.Response] for an upstream answer that was sent with
    [Content-Encoding: gzip] and the gzip-compressed text [{"ok":true}]:
    [raw.headers] keeps the header line, and [content] is the text, which
    requests has decompressed already. *)
Definition gzip_answer : Response :=
  {| status_code := 200;
     raw_headers := [("Content-Type", "application/json");
                     ("Content-Encoding", "gzip")]%string;
     content := b "{" ++ quote ++ b "ok" ++ quote ++ b ":true}";
     iter_content := [b "{" ++ quote ++ b "ok" ++ quote ++ b ":true}"] |}.

(** An event stream of two frames, delivered in three chunks. *)
Definition sse_response : Response :=
  {| status_code := 200;
     raw_headers := [("Content-Type", "text/event-stream")]%string;
     content := b "data: A" ++ [LF; LF] ++ b "data: B" ++ [LF; LF];
     iter_content := [b "data: A" ++ [LF]; [LF] ++ b "da"; b "ta: B" ++ [LF; LF]] |}.

(** The event-stream answer, as [stream_generate] relays it. *)
Definition relayed_stream : result FlaskResponse :=
  Ok (EventStream [u "data: A" ++ NL ++ NL; u "data: B" ++ NL ++ NL]
        SSEClient.Exhausted).

(** The event-stream answer, relayed in the buffered form. *)
Definition relayed_buffer : result FlaskResponse :=
  Ok (Buffered (content sse_response) 200
        [("Content-Type", "text/event-stream")]%string).

End Fixture.

(** ** Further vocabulary and closed inputs *)

Module Sample.

(** The event [events] yields for a frame with the one line [data: d]:
    the defaults of [Event()] with data [d]. *)
Definition message (d : str) : Event :=
  {| id := PyNone; event := u "message"; data := d; retry := PyNone |}.

(** The frame [data: <text>] with the terminator [\n\n]. *)
Definition data_frame (text : string) : bytes := b "data: " ++ b text ++ [LF; LF].

(** A frame written from lines, each ended by [\n]. *)
Definition frame_of (lines : list bytes) : bytes :=
  List.concat (map (fun l => l ++ [LF]) lines).

End Sample.

Module Describe.

(** A byte of the ASCII range. *)
Definition is_ascii (c : byte) : bool := (Byte.to_N c <? 128)%N.

(** The event name after the line loop and the default of line 105, from
    the last [event] value of the frame. *)
Definition event_name (last : option str) : str :=
  match last with
  | Some v => if nonempty v then v else u "message"
  | None => u "message"
  end.

(** The value of the last item of [items] whose key is [k] itself. *)
Fixpoint last_item (k : string) (items : list (string * string)) : option string :=
  match items with
  | [] => None
  | (k', v) :: rest =>
      match last_item k rest with
      | Some v' => Some v'
      | None => if String.eqb k' k then Some v else None
      end
  end.

(** What the body of a request says about streaming: the value of the
    [stream] member when the body is a JSON object that has one, and
    nothing when the body is not JSON, is no JSON object, or is an
    object without the member. *)
Inductive body_stream (request : Request) : option Json.t -> Prop :=
| stream_unparsed :
    get_json request = None -> body_stream request None
| stream_not_object (j : Json.t) :
    get_json request = Some j ->
    (forall members, j <> Json.Obj members) ->
    body_stream request None
| stream_absent (members : list (str * Json.t)) :
    get_json request = Some (Json.Obj members) ->
    Json.get members (u "stream") = None ->
    body_stream request None
| stream_present (members : list (str * Json.t)) (v : Json.t) :
    get_json request = Some (Json.Obj members) ->
    Json.get members (u "stream") = Some v ->
    body_stream request (Some v).

(** The value the [stream] variable holds for what the body says. *)
Definition stream_value (m : option Json.t) : Json.t :=
  match m with
  | Some v => v
  | None => Json.Null
  end.

(** The base URL of the upstream API (line 220). *)
Definition upstream_base : string := "https://api.openai.com/".

(** The byte with value [n], for [n] below 256 (the [byte_of] of
    [encode_char]). *)
Definition byte_of (n : N) : byte :=
  match Byte.of_N n with Some x => x | None => x00 end.

(** The continuation byte with the low six bits of [n] (the [cont] of
    [encode_char]). *)
Definition cont (n : N) : byte := byte_of (N.lor 0x80 (N.land n 0x3F)).

Local Open Scope N_scope.

(** The four shapes of the UTF-8 encoding of a code point [c]: the bytes
    [cs] with their values, in terms of the six-bit groups of [c]. *)
Inductive utf8_form (c : N) (cs : bytes) : Prop :=
| Form1 (x : byte) :
    cs = [x] -> Byte.to_N x = c -> c < 128 -> utf8_form c cs
| Form2 (x0 x1 : byte) (q r : N) :
    cs = [x0; x1] ->
    Byte.to_N x0 = 192 + q -> Byte.to_N x1 = 128 + r ->
    2 <= q < 32 -> r < 64 -> c = 64 * q + r -> utf8_form c cs
| Form3 (x0 x1 x2 : byte) (a b0 r : N) :
    cs = [x0; x1; x2] ->
    Byte.to_N x0 = 224 + a -> Byte.to_N x1 = 128 + b0 -> Byte.to_N x2 = 128 + r ->
    a < 16 -> b0 < 64 -> r < 64 ->
    (a = 0 -> 32 <= b0) -> (a = 13 -> b0 < 32) ->
    c = 4096 * a + 64 * b0 + r -> utf8_form c cs
| Form4 (x0 x1 x2 x3 : byte) (a b0 d r : N) :
    cs = [x0; x1; x2; x3] ->
    Byte.to_N x0 = 240 + a -> Byte.to_N x1 = 128 + b0 ->
    Byte.to_N x2 = 128 + d -> Byte.to_N x3 = 128 + r ->
    a <= 4 -> b0 < 64 -> d < 64 -> r < 64 ->
    (a = 0 -> 16 <= b0) -> (a = 4 -> b0 < 16) ->
    c = 262144 * a + 4096 * b0 + 64 * d + r -> utf8_form c cs.

(** A text with no [\n] and no [\r] in it. *)
Definition no_line_break (d : str) : Prop :=
  Forall (fun c => c <> 10 /\ c <> 13) d.

(** The frame of one [data] line, from the encoded data. *)
Definition data_frame_of (wd : bytes) : bytes := b "data: " ++ wd ++ [LF; LF].

End Describe.

(** ** Equality tests and suffixes *)

Module EqProps.

Lemma seq_eqb_eq {A} (eqb : A -> A -> bool) :
  (forall a c, eqb a c = true <-> a = c) ->
  forall x y, seq_eqb eqb x y = true <-> x = y.
Proof.
  intros Heq x. induction x as [|a x IH]; intros [|c y]; simpl;
    try (split; [discriminate | discriminate]); try tauto.
  rewrite andb_true_iff, Heq, IH. split.
  - intros [-> ->]. reflexivity.
  - intros E. inversion E. auto.
Qed.

Lemma str_eqb_eq (x y : str) : str_eqb x y = true <-> x = y.
Proof. apply seq_eqb_eq. exact N.eqb_eq. Qed.

Lemma bytes_eqb_eq (x y : bytes) : bytes_eqb x y = true <-> x = y.
Proof.
  apply seq_eqb_eq. intros a c. split.
  - apply Byte.byte_dec_bl.
  - apply Byte.byte_dec_lb.
Qed.

(** Dropping all but the last [len(y)] items of [x ++ y] leaves [y]. *)
Lemma skipn_suffix {A} (x y : list A) :
  skipn (List.length (x ++ y) - List.length y) (x ++ y) = y.
Proof.
  rewrite length_app.
  replace (List.length x + List.length y - List.length y)
    with (List.length x) by lia.
  induction x as [|a x IH]; simpl; auto.
Qed.

End EqProps.

(** ** Properties of the frame reassembler *)

Module ReadProps.

Import SSEClient Frame.

Lemma endswith_nil : endswith [] delimiters = false.
Proof. reflexivity. Qed.

(** The buffer never ends with a delimiter between two lines, and every
    frame the line loop yields does. *)
Lemma read_lines_terminated (lines : list bytes) :
  forall data frames data',
    endswith data delimiters = false ->
    read_lines data lines = (frames, data') ->
    Forall terminated frames /\ endswith data' delimiters = false.
Proof.
  induction lines as [|line rest IH]; intros data frames data' Hd Hr; simpl in Hr.
  - inversion Hr; subst. split; [constructor | assumption].
  - destruct (endswith (data ++ line) delimiters) eqn:He.
    + destruct (read_lines [] rest) as [fs d] eqn:Hrest.
      inversion Hr; subst.
      destruct (IH _ _ _ endswith_nil Hrest) as [Hf Hd'].
      split; [constructor; [exact He | exact Hf] | exact Hd'].
    + exact (IH _ _ _ He Hr).
Qed.

Lemma read_from_shape (event_source : list bytes) :
  forall data,
    endswith data delimiters = false ->
    exists complete residual,
      read_from data event_source = complete ++ residual
      /\ Forall terminated complete
      /\ (residual = []
          \/ exists r, residual = [r] /\ r <> [] /\ ~ terminated r).
Proof.
  induction event_source as [|chunk rest IH]; intros data Hd; simpl.
  - destruct data as [|c data'] eqn:E; simpl.
    + exists [], []. repeat split; auto.
    + exists [], [c :: data']. repeat split; auto.
      right. exists (c :: data'). repeat split; try discriminate.
      unfold terminated. rewrite Hd. discriminate.
  - destruct (read_lines data (splitlines true chunk)) as [fs d] eqn:Hr.
    destruct (read_lines_terminated _ _ Hd Hr) as [Hf Hd'].
    destruct (IH d Hd') as (complete & residual & Heq & Hc & Hres).
    exists (fs ++ complete), residual. rewrite Heq, app_assoc.
    repeat split; auto. apply Forall_app; split; assumption.
Qed.

(** C8, as the code has it: every frame [_read] yields ends with one of
    the delimiters [\r\r], [\n\n], [\r\n\r\n], except possibly the last
    one, which may be the non-empty rest of the buffer when the source is
    exhausted; that rest does not end with a delimiter. *)
Theorem read_frames_terminated_but_last (event_source : list bytes) :
  exists complete residual,
    _read event_source = complete ++ residual
    /\ Forall terminated complete
    /\ (residual = []
        \/ exists r, residual = [r] /\ r <> [] /\ ~ terminated r).
Proof. exact (read_from_shape event_source [] endswith_nil). Qed.

(** C8 as stated fails: the source of one chunk [data: x] yields that
    chunk as a frame, and it ends with no delimiter. *)
Lemma read_unterminated_frame :
  _read [b "data: x"] = [b "data: x"] /\ ~ terminated (b "data: x").
Proof. split; [reflexivity | unfold terminated; vm_compute; discriminate]. Qed.

End ReadProps.

(** ** Properties of the event decoder *)

Module DecodeProps.

Import SSEClient Frame EqProps.

Lemma process_line_field (e : Event) (line : str) :
  process_line e line =
  match field_value line with
  | Some (f, v) => assign e f v
  | None => e
  end.
Proof.
  unfold process_line, field_value, assign.
  destruct (negb (nonempty (strip line)) || startswith line (u ":")); [reflexivity|].
  destruct (split1 58 line) as [field rest]. cbn [fst snd].
  destruct (EventClass.has_key field); reflexivity.
Qed.

Lemma process_lines_decoded (ls : list bytes) :
  forall e lines,
    decode_all ls = Some lines ->
    process_lines e ls = Some (fold_left process_line lines e).
Proof.
  induction ls as [|l rest IH]; intros e lines H; simpl in *.
  - inversion H. reflexivity.
  - destruct (decode l) as [l'|]; [|discriminate].
    destruct (decode_all rest) as [rest'|] eqn:Hr; [|discriminate].
    inversion H; subst. simpl. apply IH. reflexivity.
Qed.

Lemma process_lines_undecoded (ls : list bytes) :
  forall e, decode_all ls = None -> process_lines e ls = None.
Proof.
  induction ls as [|l rest IH]; intros e H; simpl in *.
  - discriminate.
  - destruct (decode l) as [l'|]; [|reflexivity].
    destruct (decode_all rest) as [rest'|] eqn:Hr; [discriminate|].
    apply IH. reflexivity.
Qed.

Lemma assign_data (e : Event) (f v : str) :
  data (assign e f v) =
  if str_eqb f (u "data") then data e ++ (v ++ NL) else data e.
Proof.
  unfold assign, EventClass.set_item.
  destruct (str_eqb f (u "data")) eqn:Hdata.
  - apply str_eqb_eq in Hdata; subst f; reflexivity.
  - destruct (str_eqb f (u "id")), (str_eqb f (u "event")),
      (str_eqb f (u "retry")); reflexivity.
Qed.

Lemma assign_retry (e : Event) (f v : str) :
  retry (assign e f v) =
  if str_eqb f (u "retry") then PyStr v else retry e.
Proof.
  unfold assign, EventClass.set_item.
  destruct (str_eqb f (u "retry")) eqn:Hretry.
  - apply str_eqb_eq in Hretry; subst f; reflexivity.
  - destruct (str_eqb f (u "data")), (str_eqb f (u "id")),
      (str_eqb f (u "event")); reflexivity.
Qed.

(** The [data] attribute after the line loop: the values of the [data]
    lines, each followed by a newline, appended to what was there. *)
Lemma fold_data (lines : list str) :
  forall e,
    data (fold_left process_line lines e) =
    data e ++ List.concat (map (fun v => v ++ NL) (values_of (u "data") lines)).
Proof.
  induction lines as [|l rest IH]; intros e; simpl.
  - rewrite app_nil_r. reflexivity.
  - rewrite IH, process_line_field.
    destruct (field_value l) as [[f v]|]; [|reflexivity].
    rewrite assign_data.
    destruct (str_eqb f (u "data")); [|reflexivity].
    simpl. rewrite <- !app_assoc. reflexivity.
Qed.

(** The [retry] attribute after the line loop: the value of the last
    [retry] line, as text, or what was there. *)
Lemma fold_retry (lines : list str) :
  forall e,
    retry (fold_left process_line lines e) =
    match last_of (values_of (u "retry") lines) with
    | Some v => PyStr v
    | None => retry e
    end.
Proof.
  induction lines as [|l rest IH]; intros e; simpl.
  - reflexivity.
  - rewrite IH, process_line_field.
    destruct (field_value l) as [[f v]|]; [|reflexivity].
    rewrite assign_retry.
    destruct (str_eqb f (u "retry")); [|reflexivity].
    simpl. destruct (last_of (values_of (u "retry") rest)); reflexivity.
Qed.

Lemma concat_lines_join (v : str) (vs : list str) :
  List.concat (map (fun x => x ++ NL) (v :: vs)) = join NL (v :: vs) ++ NL.
Proof.
  revert v. induction vs as [|w vs IH]; intros v.
  - simpl. rewrite app_nil_r. reflexivity.
  - change (List.concat (map (fun x => x ++ NL) (v :: w :: vs)))
      with ((v ++ NL) ++ List.concat (map (fun x => x ++ NL) (w :: vs))).
    rewrite IH.
    change (join NL (v :: w :: vs)) with (v ++ NL ++ join NL (w :: vs)).
    rewrite <- !app_assoc. reflexivity.
Qed.

Lemma str_eqb_refl (x : str) : str_eqb x x = true.
Proof. apply str_eqb_eq. reflexivity. Qed.

Lemma str_endswith_app (x suffix : str) : str_endswith (x ++ suffix) suffix = true.
Proof. unfold str_endswith. rewrite skipn_suffix. apply str_eqb_refl. Qed.

(** What [event_of_chunk] returns for a frame whose lines all decode. *)
Lemma event_of_chunk_decoded (chunk : bytes) (lines : list str) :
  decoded_lines chunk = Some lines ->
  event_of_chunk chunk =
  Some (dispatch (fold_left process_line lines EventClass.init)).
Proof.
  intros H. unfold event_of_chunk.
  rewrite (process_lines_decoded _ EventClass.init H). reflexivity.
Qed.

(** C2, as the code has it: a frame whose lines decode yields no event
    exactly when it has no [data] field line (the accumulated data is
    empty before the trailing newline is removed); a frame with a [data]
    line always yields one, even when every value is empty. *)
Theorem event_discarded_iff_no_data_line (chunk : bytes) (lines : list str) :
  decoded_lines chunk = Some lines ->
  (event_of_chunk chunk = Some None <-> values_of (u "data") lines = []).
Proof.
  intros H. rewrite (event_of_chunk_decoded _ H). unfold dispatch.
  rewrite fold_data.
  change (data EventClass.init) with (@nil N). rewrite app_nil_l.
  destruct (values_of (u "data") lines) as [|v vs].
  - simpl. split; reflexivity.
  - rewrite concat_lines_join.
    generalize (join NL (v :: vs)) as d. intros d.
    assert (Hne : nonempty (d ++ NL) = true) by (destruct d; reflexivity).
    rewrite Hne. cbn [negb]. split; discriminate.
Qed.

(** The frame [event: ping] with its terminator has no [data] line and
    yields nothing. *)
Lemma event_discarded_iff_no_data_line_witness :
  let frame := b "event: ping" ++ [LF; LF] in
  decoded_lines frame = Some [u "event: ping"; []]
  /\ event_of_chunk frame = Some None
  /\ events [frame] = ([], Exhausted).
Proof.
  split; [reflexivity|]. split; [|reflexivity].
  apply (event_discarded_iff_no_data_line
           (b "event: ping" ++ [LF; LF]) (lines := [u "event: ping"; []])).
  - reflexivity.
  - reflexivity.
Defined.

(** C2 as stated fails: the frame [data:] with its terminator has one
    [data] line, with an empty value, and yields an event whose data is
    empty. *)
Lemma empty_data_line_is_dispatched :
  events [b "data:" ++ [LF; LF]] =
  ([{| id := PyNone; event := u "message"; data := []; retry := PyNone |}],
   Exhausted).
Proof. reflexivity. Qed.

(** C5: for a frame whose lines decode and that has at least one [data]
    line, the decoder yields one event, and its data is the values of the
    [data] lines joined by newlines. *)
Theorem event_data_is_joined_values
  (chunk : bytes) (lines : list str) (v : str) (vs : list str) :
  decoded_lines chunk = Some lines ->
  values_of (u "data") lines = v :: vs ->
  exists e,
    event_of_chunk chunk = Some (Some e) /\ data e = join NL (v :: vs).
Proof.
  intros H Hv. rewrite (event_of_chunk_decoded _ H). unfold dispatch.
  rewrite fold_data, Hv, concat_lines_join.
  change (data EventClass.init) with (@nil N). rewrite app_nil_l.
  generalize (join NL (v :: vs)) as d. intros d.
  assert (Hne : nonempty (d ++ NL) = true) by (destruct d; reflexivity).
  rewrite Hne, str_endswith_app. cbn [negb].
  eexists. split; [reflexivity|].
  cbn [data]. unfold drop_last, NL. apply removelast_last.
Qed.

(** The frame [data: foo], [data: bar], terminator: one event, with data
    [foo\nbar]. *)
Lemma event_data_is_joined_values_witness :
  let frame := b "data: foo" ++ [LF] ++ b "data: bar" ++ [LF; LF] in
  (exists e, event_of_chunk frame = Some (Some e)
             /\ data e = u "foo" ++ NL ++ u "bar")
  /\ events [frame] =
     ([{| id := PyNone; event := u "message";
          data := u "foo" ++ NL ++ u "bar"; retry := PyNone |}], Exhausted).
Proof.
  split; [|reflexivity].
  apply (event_data_is_joined_values
           (b "data: foo" ++ [LF] ++ b "data: bar" ++ [LF; LF])
           (lines := [u "data: foo"; u "data: bar"; []])
           (v := u "foo") (vs := [u "bar"])).
  - reflexivity.
  - reflexivity.
Defined.

(** C9, as the code has it: the [retry] attribute of the event a frame
    yields is [None] when the frame has no [retry] line, and otherwise the
    value of its last [retry] line as text; the text is never parsed. *)
Theorem event_retry_is_last_retry_text
  (chunk : bytes) (lines : list str) (e : Event) :
  decoded_lines chunk = Some lines ->
  event_of_chunk chunk = Some (Some e) ->
  retry e =
  match last_of (values_of (u "retry") lines) with
  | Some v => PyStr v
  | None => PyNone
  end.
Proof.
  intros H He. rewrite (event_of_chunk_decoded _ H) in He.
  unfold dispatch in He.
  destruct (negb (nonempty (data (fold_left process_line lines EventClass.init))));
    [discriminate|].
  inversion He; subst e. cbn [retry]. rewrite fold_retry. reflexivity.
Qed.

(** Two [retry] lines: the second one wins, as the text [20]. *)
Lemma event_retry_is_last_retry_text_witness :
  let frame :=
    b "retry: 10" ++ [LF] ++ b "data: x" ++ [LF] ++ b "retry: 20" ++ [LF; LF] in
  let e := {| id := PyNone; event := u "message"; data := u "x";
              retry := PyStr (u "20") |} in
  event_of_chunk frame = Some (Some e) /\ retry e = PyStr (u "20").
Proof.
  split; [reflexivity|].
  apply (event_retry_is_last_retry_text
           (b "retry: 10" ++ [LF] ++ b "data: x" ++ [LF] ++ b "retry: 20" ++ [LF; LF])
           (lines := [u "retry: 10"; u "data: x"; u "retry: 20"; []])).
  - reflexivity.
  - reflexivity.
Defined.

(** C9 as stated fails: after the line [retry: 3000] the attribute holds
    the text [3000], which is neither absent nor an integer. *)
Lemma retry_holds_text_not_integer :
  let frame := b "retry: 3000" ++ [LF] ++ b "data: x" ++ [LF; LF] in
  exists e,
    events [frame] = ([e], Exhausted)
    /\ retry e = PyStr (u "3000")
    /\ retry e <> PyNone
    /\ forall z, retry e <> PyInt z.
Proof.
  eexists. split; [reflexivity|]. cbn [retry].
  split; [reflexivity|]. split; [discriminate|]. intros z; discriminate.
Qed.

(** C6: the event [message]/[hello], written as [proxy] writes it to the
    inbound caller and encoded as UTF-8, is read back by [events] as that
    one event, from a single chunk and from one chunk per byte alike. *)
Theorem hello_round_trip :
  let e := {| id := PyNone; event := u "message"; data := u "hello";
              retry := PyNone |} in
  exists wire,
    encode (emit e) = Some wire
    /\ wire = b "data: hello" ++ [LF; LF]
    /\ events [wire] = ([e], Exhausted)
    /\ events (map (fun c => [c]) wire) = ([e], Exhausted).
Proof.
  cbv zeta. eexists. split; [reflexivity|].
  split; [reflexivity|]. split; reflexivity.
Qed.

End DecodeProps.

(** ** Properties of the forwarder *)

Module ProxyProps.

Import Frame Describe.

Lemma dict_get_set {V} (d : dict V) (k name : string) (v : V) :
  dict_get (dict_set d k v) name =
  if String.eqb k name then Some v else dict_get d name.
Proof.
  induction d as [|[k' v'] d IH]; simpl.
  - reflexivity.
  - destruct (String.eqb k' k) eqn:Ek; simpl.
    + apply String.eqb_eq in Ek. subst k'.
      destruct (String.eqb k name); reflexivity.
    + rewrite IH. destruct (String.eqb k' name) eqn:E1; [|reflexivity].
      destruct (String.eqb k name) eqn:E2; [|reflexivity].
      apply String.eqb_eq in E1, E2. subst.
      rewrite String.eqb_refl in Ek. discriminate.
Qed.

(** The dictionary of lowered header names holds, for each name, the
    value of the last header line with that name. *)
Lemma headers_dict_get (items : list (string * string)) (name : string) :
  forall d0,
    dict_get
      (fold_left (fun d kv => dict_set d (lower (fst kv)) (snd kv)) items d0)
      name =
    match last_header name items with
    | Some v => Some v
    | None => dict_get d0 name
    end.
Proof.
  induction items as [|[k v] rest IH]; intros d0; simpl.
  - reflexivity.
  - rewrite IH. destruct (last_header name rest); [reflexivity|].
    rewrite dict_get_set. destruct (String.eqb (lower k) name); reflexivity.
Qed.

Section WithEnvironment.

Variables brotli gzip zlib : bytes -> option bytes.
Variable send : OutboundRequest -> Json.t -> option Response.

Local Abbreviation log_response := (Forwarder.log_response brotli gzip zlib).
Local Abbreviation decompress := (Forwarder.decompress brotli gzip zlib).
Local Abbreviation proxy := (Forwarder.proxy brotli gzip zlib send).

Lemma log_response_declared (resp : Response) :
  log_response resp = decompress (declared_encoding resp) (content resp).
Proof.
  unfold Forwarder.log_response, declared_encoding. cbv zeta.
  rewrite headers_dict_get. simpl.
  destruct (last_header "content-encoding" (raw_headers resp)); reflexivity.
Qed.


(** The [stream] variable of lines 221-225 is what the body says about
    streaming. *)
Lemma stream_of_body (request : Request) (m : option Json.t) :
  body_stream request m -> stream_of request = stream_value m.
Proof.
  intros H. unfold stream_of.
  destruct H as [-> | j -> Hj | members -> -> | members v -> ->];
    try reflexivity.
  destruct j; try reflexivity. exfalso. eapply Hj. reflexivity.
Qed.

(** C3 does not hold of the code.  [log_response] hands
    [response.content] to the decompressor that the [Content-Encoding]
    header names and guards the call with nothing: when the decompressor
    raises on these bytes, the exception leaves [log_response] and
    [proxy], so the exchange ends with the error and nothing is relayed,
    whatever the streaming mode. *)
Theorem decompression_failure_ends_exchange
  (request : Request) (resp : Response) :
  send (outbound request) (stream_of request) = Some resp ->
  decompress (declared_encoding resp) (content resp) = None ->
  proxy request = Raise DecompressError.
Proof.
  intros Hs Hd. unfold Forwarder.proxy. rewrite Hs, log_response_declared, Hd.
  reflexivity.
Qed.

(** C4: the streaming decision is read from the body once, before the
    outbound request is sent, and fixes the form of the response.  For
    what the body says about streaming (the value of the [stream] member
    of a JSON object; nothing when the body is not JSON, is no object or
    has no such member, none of which raises), the [stream] variable
    holds that value or [None], the outbound request is sent with it,
    and an exchange that completes answers in the streamed form when the
    value is truthy and in the buffered form otherwise. *)
Theorem stream_decision_fixes_form (request : Request) (m : option Json.t) :
  body_stream request m ->
  stream_of request = stream_value m
  /\ proxy request =
     match send (outbound request) (stream_value m) with
     | None => Raise TransportError
     | Some resp =>
         match log_response resp with
         | None => Raise DecompressError
         | Some _ =>
             if Json.truthy (stream_value m)
             then Ok (EventStream (fst (stream_generate resp))
                                  (snd (stream_generate resp)))
             else Ok (Buffered (content resp) (status_code resp)
                               (relayed_headers resp))
         end
     end.
Proof.
  intros H. pose proof (stream_of_body H) as Hn.
  split; [exact Hn|]. unfold Forwarder.proxy. rewrite Hn.
  destruct (send (outbound request) (stream_value m)) as [resp|]; [|reflexivity].
  destruct (log_response resp); [|reflexivity].
  destruct (Json.truthy (stream_value m)); simpl; [|reflexivity].
  destruct (stream_generate resp); reflexivity.
Qed.


(** C10: in an exchange that completes, the streamed form is returned
    exactly when the [stream] member of the JSON object is truthy; a
    falsy member and an absent one give the buffered form. *)
Theorem streamed_iff_stream_truthy
  (request : Request) (members : list (str * Json.t)) (resp : Response) :
  get_json request = Some (Json.Obj members) ->
  send (outbound request) (stream_of request) = Some resp ->
  log_response resp <> None ->
  proxy request =
  if match Json.get members (u "stream") with
     | Some v => Json.truthy v
     | None => false
     end
  then Ok (EventStream (fst (stream_generate resp)) (snd (stream_generate resp)))
  else Ok (Buffered (content resp) (status_code resp) (relayed_headers resp)).
Proof.
  intros Hj Hs Hl. unfold Forwarder.proxy. rewrite Hs.
  destruct (log_response resp); [|contradiction].
  unfold stream_of. rewrite Hj.
  destruct (Json.get members (u "stream")) as [v|]; simpl.
  - destruct (Json.truthy v); simpl; [|reflexivity].
    destruct (stream_generate resp); reflexivity.
  - reflexivity.
Qed.

End WithEnvironment.

Import Fixture.

Local Abbreviation run resp :=
  (Forwarder.proxy brotli_stub gzip_stub zlib_stub (upstream resp)).

(** The request [{"stream": false}] answered with [gzip_answer], an
    upstream answer that was valid gzip: [content] is the text requests
    has decompressed, [gzip.decompress] raises on it at line 185, and
    the exchange ends with that error. *)
Lemma decompression_failure_ends_exchange_witness :
  let request := post_stream "false" (Json.Bool false) in
  Json.truthy (stream_of request) = false
  /\ declared_encoding gzip_answer = Some "gzip"%string
  /\ gzip_stub (content gzip_answer) = None
  /\ run gzip_answer request = Raise DecompressError.
Proof.
  cbv zeta. split; [reflexivity|]. split; [reflexivity|].
  split; [reflexivity|].
  apply (decompression_failure_ends_exchange
           brotli_stub gzip_stub zlib_stub (upstream gzip_answer)
           (post_stream "false" (Json.Bool false)) (resp := gzip_answer)).
  - reflexivity.
  - reflexivity.
Defined.

(** The five things a body can say: no JSON, no object and no member,
    each answered in the buffered form; the member [true], answered in
    the streamed form; the member [false], answered in the buffered
    form. *)
Lemma stream_decision_fixes_form_witness :
  (stream_of (post (b "not json") None) = Json.Null
   /\ run sse_response (post (b "not json") None) = relayed_buffer)
  /\ (stream_of (post (b "[1]") (Some (Json.Arr [Json.Int 1]))) = Json.Null
      /\ run sse_response (post (b "[1]") (Some (Json.Arr [Json.Int 1])))
         = relayed_buffer)
  /\ (stream_of (post (b "{}") (Some (Json.Obj []))) = Json.Null
      /\ run sse_response (post (b "{}") (Some (Json.Obj []))) = relayed_buffer)
  /\ (stream_of (post_stream "true" (Json.Bool true)) = Json.Bool true
      /\ run sse_response (post_stream "true" (Json.Bool true)) = relayed_stream)
  /\ (stream_of (post_stream "false" (Json.Bool false)) = Json.Bool false
      /\ run sse_response (post_stream "false" (Json.Bool false))
         = relayed_buffer).
Proof.
  split; [|split; [|split; [|split]]].
  - apply (@stream_decision_fixes_form
             brotli_stub gzip_stub zlib_stub (upstream sse_response)
             (post (b "not json") None) None).
    apply stream_unparsed. reflexivity.
  - apply (@stream_decision_fixes_form
             brotli_stub gzip_stub zlib_stub (upstream sse_response)
             (post (b "[1]") (Some (Json.Arr [Json.Int 1]))) None).
    apply stream_not_object with (j := Json.Arr [Json.Int 1]).
    + reflexivity.
    + intros members. discriminate.
  - apply (@stream_decision_fixes_form
             brotli_stub gzip_stub zlib_stub (upstream sse_response)
             (post (b "{}") (Some (Json.Obj []))) None).
    apply stream_absent with (members := []); reflexivity.
  - apply (@stream_decision_fixes_form
             brotli_stub gzip_stub zlib_stub (upstream sse_response)
             (post_stream "true" (Json.Bool true)) (Some (Json.Bool true))).
    apply stream_present
      with (members := [(u "stream", Json.Bool true)]); reflexivity.
  - apply (@stream_decision_fixes_form
             brotli_stub gzip_stub zlib_stub (upstream sse_response)
             (post_stream "false" (Json.Bool false)) (Some (Json.Bool false))).
    apply stream_present
      with (members := [(u "stream", Json.Bool false)]); reflexivity.
Defined.



(** Closes a goal by a theorem applied to its inputs, the three side
    conditions by evaluation. *)
Tactic Notation "by_evaluation" uconstr(t) :=
  refine t; [reflexivity | reflexivity | discriminate].

(** The members [1], a non-empty string and [true] stream the answer;
    [false], [0], [null], the empty string and no member buffer it. *)
Lemma streamed_iff_stream_truthy_witness :
  run sse_response (post_stream "1" (Json.Int 1)) = relayed_stream
  /\ run sse_response (post_stream "yes" (Json.Str (u "yes"))) = relayed_stream
  /\ run sse_response (post_stream "true" (Json.Bool true)) = relayed_stream
  /\ run sse_response (post_stream "false" (Json.Bool false)) = relayed_buffer
  /\ run sse_response (post_stream "0" (Json.Int 0)) = relayed_buffer
  /\ run sse_response (post_stream "null" Json.Null) = relayed_buffer
  /\ run sse_response (post_stream "" (Json.Str [])) = relayed_buffer
  /\ run sse_response (post (b "{}") (Some (Json.Obj []))) = relayed_buffer.
Proof.
  split.
  { by_evaluation
        (@streamed_iff_stream_truthy
           brotli_stub gzip_stub zlib_stub (upstream sse_response)
           (post_stream "1" (Json.Int 1)) [(u "stream", Json.Int 1)]
           sse_response _ _ _). }
  split.
  { by_evaluation
        (@streamed_iff_stream_truthy
           brotli_stub gzip_stub zlib_stub (upstream sse_response)
           (post_stream "yes" (Json.Str (u "yes"))) [(u "stream", Json.Str (u "yes"))]
           sse_response _ _ _). }
  split.
  { by_evaluation
        (@streamed_iff_stream_truthy
           brotli_stub gzip_stub zlib_stub (upstream sse_response)
           (post_stream "true" (Json.Bool true)) [(u "stream", Json.Bool true)]
           sse_response _ _ _). }
  split.
  { by_evaluation
        (@streamed_iff_stream_truthy
           brotli_stub gzip_stub zlib_stub (upstream sse_response)
           (post_stream "false" (Json.Bool false)) [(u "stream", Json.Bool false)]
           sse_response _ _ _). }
  split.
  { by_evaluation
        (@streamed_iff_stream_truthy
           brotli_stub gzip_stub zlib_stub (upstream sse_response)
           (post_stream "0" (Json.Int 0)) [(u "stream", Json.Int 0)]
           sse_response _ _ _). }
  split.
  { by_evaluation
        (@streamed_iff_stream_truthy
           brotli_stub gzip_stub zlib_stub (upstream sse_response)
           (post_stream "null" Json.Null) [(u "stream", Json.Null)]
           sse_response _ _ _). }
  split.
  { by_evaluation
        (@streamed_iff_stream_truthy
           brotli_stub gzip_stub zlib_stub (upstream sse_response)
           (post_stream "" (Json.Str [])) [(u "stream", Json.Str [])]
           sse_response _ _ _). }
  by_evaluation
      (@streamed_iff_stream_truthy
         brotli_stub gzip_stub zlib_stub (upstream sse_response)
         (post (b "{}") (Some (Json.Obj []))) (@nil (str * Json.t))
         sse_response _ _ _).
Defined.

End ProxyProps.

(** ** Chunk boundaries *)

Module ChunkProps.

Import SSEClient Frame EqProps.

Lemma endswith1_spec (x suffix : bytes) :
  endswith1 x suffix = true <-> exists p, x = p ++ suffix.
Proof.
  unfold endswith1. rewrite bytes_eqb_eq. split.
  - set (n := List.length x - List.length suffix). intros H.
    exists (firstn n x). pose proof (firstn_skipn n x) as E.
    rewrite H in E. symmetry. exact E.
  - intros [p ->]. apply skipn_suffix.
Qed.

Lemma endswith_delimiters (x : bytes) :
  endswith x delimiters = true <->
  exists p, x = p ++ [CR; CR] \/ x = p ++ [LF; LF] \/ x = p ++ [CR; LF; CR; LF].
Proof.
  unfold endswith, delimiters. simpl.
  rewrite !orb_true_iff, !endswith1_spec. split.
  - intros [[p H] | [[p H] | [[p H] | H]]]; try discriminate; exists p; auto.
  - intros [p [H | [H | H]]]; [left | right; left | right; right; left];
      exists p; exact H.
Qed.

Lemma snoc2 {A} (p : list A) (a c : A) : p ++ [a; c] = (p ++ [a]) ++ [c].
Proof. rewrite <- app_assoc. reflexivity. Qed.

Lemma snoc4 {A} (p : list A) (a1 a2 a3 a4 : A) :
  p ++ [a1; a2; a3; a4] = (p ++ [a1; a2; a3]) ++ [a4].
Proof. rewrite <- app_assoc. reflexivity. Qed.

(** A buffer that ends with a plain byte ends with no delimiter. *)
Lemma endswith_plain (x : bytes) (c : byte) :
  plain c -> endswith (x ++ [c]) delimiters = false.
Proof.
  intros [Hcr Hlf]. apply not_true_is_false. rewrite endswith_delimiters.
  intros [p [H | [H | H]]].
  - rewrite snoc2 in H. apply app_inj_tail in H. tauto.
  - rewrite snoc2 in H. apply app_inj_tail in H. tauto.
  - rewrite snoc4 in H. apply app_inj_tail in H. tauto.
Qed.

(** A buffer that ends with a delimiter and with [\r] ends with [\r\r]. *)
Lemma endswith_cr (x : bytes) :
  endswith (x ++ [CR]) delimiters = true -> exists p, x = p ++ [CR].
Proof.
  rewrite endswith_delimiters. intros [p [H | [H | H]]].
  - rewrite snoc2 in H. apply app_inj_tail in H. exists p. tauto.
  - rewrite snoc2 in H. apply app_inj_tail in H. destruct H; discriminate.
  - rewrite snoc4 in H. apply app_inj_tail in H. destruct H; discriminate.
Qed.

Lemma endswith_plain_line (data cur : bytes) :
  Forall plain cur -> cur <> [] -> endswith (data ++ cur) delimiters = false.
Proof.
  intros Hp Hne. destruct cur as [|c cur' _] using rev_ind; [contradiction|].
  apply Forall_app in Hp. destruct Hp as [_ Hc]. inversion Hc; subst.
  rewrite app_assoc. apply endswith_plain. assumption.
Qed.

Lemma has_crcrlf_suffix (p s : bytes) :
  has_crcrlf (p ++ s) = false -> has_crcrlf s = false.
Proof.
  induction p as [|c p IH]; simpl; auto.
  intros H. apply orb_false_iff in H. tauto.
Qed.

Lemma has_crcrlf_here (p q : bytes) :
  has_crcrlf (p ++ CR :: CR :: LF :: q) = true.
Proof.
  induction p as [|c p IH].
  - reflexivity.
  - change ((c :: p) ++ CR :: CR :: LF :: q)
      with (c :: (p ++ CR :: CR :: LF :: q)).
    cbn [has_crcrlf]. rewrite IH. apply orb_true_r.
Qed.

Lemma starts_crcrlf_app (s q : bytes) :
  starts_crcrlf s = true -> starts_crcrlf (s ++ q) = true.
Proof. destruct s as [|c1 [|c2 [|c3 s]]]; simpl; auto; discriminate. Qed.

Lemma has_crcrlf_prefix (s q : bytes) :
  has_crcrlf (s ++ q) = false -> has_crcrlf s = false.
Proof.
  intros H. apply not_true_is_false. intros Hs.
  assert (Ht : has_crcrlf (s ++ q) = true); [|congruence].
  clear H. induction s as [|c s IH]; [discriminate|].
  change ((c :: s) ++ q) with (c :: (s ++ q)).
  cbn [has_crcrlf] in *. apply orb_true_iff in Hs. apply orb_true_iff.
  destruct Hs as [Hs | Hs].
  - left. exact (starts_crcrlf_app (c :: s) q Hs).
  - right. auto.
Qed.

Lemma feed_cons (data : bytes) (c : byte) (s : bytes) :
  feed data (c :: s) =
  if endswith (data ++ [c]) delimiters then
    let (frames, data') := feed [] s in ((data ++ [c]) :: frames, data')
  else feed (data ++ [c]) s.
Proof. reflexivity. Qed.

Lemma read_lines_cons (data line : bytes) (rest : list bytes) :
  read_lines data (line :: rest) =
  if endswith (data ++ line) delimiters then
    let (frames, data') := read_lines [] rest in ((data ++ line) :: frames, data')
  else read_lines (data ++ line) rest.
Proof. reflexivity. Qed.

Lemma splitlines_from_cons (cur : bytes) (c : byte) (s' : bytes) :
  splitlines_from true cur (c :: s') =
  if Byte.eqb c LF then (cur ++ [c]) :: splitlines_from true [] s'
  else if Byte.eqb c CR then
    match s' with
    | d :: s'' =>
        if Byte.eqb d LF then (cur ++ [c; d]) :: splitlines_from true [] s''
        else (cur ++ [c]) :: splitlines_from true [] s'
    | [] => [cur ++ [c]]
    end
  else splitlines_from true (cur ++ [c]) s'.
Proof. reflexivity. Qed.

Lemma plain_of_eqb (c : byte) :
  Byte.eqb c LF = false -> Byte.eqb c CR = false -> plain c.
Proof. intros H1 H2. split; apply Byte.eqb_false; assumption. Qed.

(** Appending a whole line and then reading on from an empty line
    buffer agrees with the byte machine, once the rest does. *)
Lemma line_then_rest (data line s' : bytes) :
  read_lines [] (splitlines_from true [] s') = feed [] s' ->
  read_lines (data ++ line) (splitlines_from true [] s') = feed (data ++ line) s' ->
  read_lines data (line :: splitlines_from true [] s') =
  if endswith (data ++ line) delimiters then
    let (frames, data') := feed [] s' in ((data ++ line) :: frames, data')
  else feed (data ++ line) s'.
Proof.
  intros H0 H1. rewrite read_lines_cons, H0, H1. reflexivity.
Qed.

(** Within one chunk, line-wise reading agrees with the byte machine as
    long as [\r\r\n] does not occur in the buffer followed by the chunk.
    [cur] is the part of the current line already scanned. *)
Lemma read_lines_splitlines_from (n : nat) :
  forall s cur data,
    List.length s <= n ->
    Forall plain cur ->
    has_crcrlf (data ++ cur ++ s) = false ->
    read_lines data (splitlines_from true cur s) = feed (data ++ cur) s.
Proof.
  induction n as [|n IH]; intros s cur data Hlen Hp Hno.
  - destruct s as [|c s']; [|simpl in Hlen; lia].
    simpl. destruct cur as [|c cur'].
    + rewrite app_nil_r. reflexivity.
    + simpl nonempty. cbv iota. rewrite read_lines_cons.
      rewrite endswith_plain_line by (assumption || discriminate). reflexivity.
  - destruct s as [|c s'].
    { simpl. destruct cur as [|c cur'].
      + rewrite app_nil_r. reflexivity.
      + simpl nonempty. cbv iota. rewrite read_lines_cons.
        rewrite endswith_plain_line by (assumption || discriminate). reflexivity. }
    simpl in Hlen.
    (* what the induction gives for reading on after a line *)
    assert (Hrest : forall line t,
               List.length t <= n ->
               has_crcrlf ((data ++ line) ++ t) = false ->
               read_lines data (line :: splitlines_from true [] t) =
               if endswith (data ++ line) delimiters then
                 let (frames, data') := feed [] t in ((data ++ line) :: frames, data')
               else feed (data ++ line) t).
    { intros line t Ht Hn. apply line_then_rest.
      - rewrite (IH t [] []); [reflexivity | exact Ht | constructor |].
        simpl. exact (has_crcrlf_suffix _ _ Hn).
      - rewrite (IH t [] (data ++ line)); [| exact Ht | constructor |].
        + rewrite app_nil_r. reflexivity.
        + simpl. exact Hn. }
    rewrite splitlines_from_cons, feed_cons.
    destruct (Byte.eqb c LF) eqn:Elf.
    { rewrite Hrest.
      - rewrite (app_assoc data cur [c]). reflexivity.
      - lia.
      - rewrite <- !app_assoc. exact Hno. }
    destruct (Byte.eqb c CR) eqn:Ecr.
    + apply Byte.byte_dec_bl in Ecr. subst c.
      destruct s' as [|d s''].
      * rewrite read_lines_cons, (app_assoc data cur [CR]). reflexivity.
      * destruct (Byte.eqb d LF) eqn:Edlf.
        -- apply Byte.byte_dec_bl in Edlf. subst d.
           destruct (endswith ((data ++ cur) ++ [CR]) delimiters) eqn:Eend.
           { exfalso. apply endswith_cr in Eend. destruct Eend as [p Ep].
             rewrite app_assoc, Ep, <- app_assoc in Hno.
             change ([CR] ++ CR :: LF :: s'') with (CR :: CR :: LF :: s'') in Hno.
             rewrite has_crcrlf_here in Hno. discriminate. }
           rewrite feed_cons, Hrest.
           ++ rewrite (app_assoc data cur [CR; LF]), (snoc2 (data ++ cur) CR LF).
              reflexivity.
           ++ simpl in Hlen. lia.
           ++ rewrite <- !app_assoc. exact Hno.
        -- rewrite Hrest.
           ++ rewrite (app_assoc data cur [CR]). reflexivity.
           ++ lia.
           ++ rewrite <- !app_assoc. exact Hno.
    + rewrite endswith_plain by (apply plain_of_eqb; assumption).
      rewrite (IH s' (cur ++ [c]) data).
      * rewrite app_assoc. reflexivity.
      * lia.
      * apply Forall_app. split; [assumption|].
        constructor; [apply plain_of_eqb; assumption | constructor].
      * rewrite <- app_assoc. exact Hno.
Qed.

Lemma read_lines_app (l1 l2 : list bytes) :
  forall data,
    read_lines data (l1 ++ l2) =
    let (f1, d1) := read_lines data l1 in
    let (f2, d2) := read_lines d1 l2 in (f1 ++ f2, d2).
Proof.
  induction l1 as [|line rest IH]; intros data.
  - simpl. destruct (read_lines data l2); reflexivity.
  - change ((line :: rest) ++ l2) with (line :: (rest ++ l2)).
    rewrite !read_lines_cons.
    destruct (endswith (data ++ line) delimiters).
    + rewrite IH. destruct (read_lines [] rest) as [f1 d1].
      destruct (read_lines d1 l2); reflexivity.
    + apply IH.
Qed.

Lemma feed_app (s1 s2 : bytes) (data : bytes) :
  feed data (s1 ++ s2) =
  let (f1, d1) := feed data s1 in
  let (f2, d2) := feed d1 s2 in (f1 ++ f2, d2).
Proof. unfold feed. rewrite map_app. apply read_lines_app. Qed.

(** The buffer the byte machine leaves is the end of what it was fed. *)
Lemma feed_buffer_suffix (s : bytes) :
  forall data frames data',
    feed data s = (frames, data') -> exists p, data ++ s = p ++ data'.
Proof.
  induction s as [|c s IH]; intros data frames data' H.
  - inversion H; subst. exists []. rewrite app_nil_r. reflexivity.
  - rewrite feed_cons in H.
    destruct (endswith (data ++ [c]) delimiters).
    + destruct (feed [] s) as [fs d] eqn:E. inversion H; subst.
      destruct (IH _ _ _ E) as [p Hp]. simpl in Hp.
      exists ((data ++ [c]) ++ p). rewrite <- !app_assoc. simpl.
      rewrite Hp. reflexivity.
    + destruct (IH _ _ _ H) as [p Hp]. exists p.
      rewrite <- Hp, <- app_assoc. reflexivity.
Qed.

(** Without [\r\r\n], reading chunk by chunk is reading byte by byte. *)
Lemma read_from_feed (event_source : list bytes) :
  forall data,
    has_crcrlf (data ++ List.concat event_source) = false ->
    read_from data event_source = finish (feed data (List.concat event_source)).
Proof.
  induction event_source as [|chunk rest IH]; intros data Hno.
  - reflexivity.
  - cbn [read_from List.concat] in *. unfold splitlines.
    rewrite (@read_lines_splitlines_from (List.length chunk) chunk [] data).
    + rewrite app_nil_r, feed_app.
      destruct (feed data chunk) as [f1 d1] eqn:E.
      destruct (feed_buffer_suffix _ _ E) as [p Hp].
      rewrite IH.
      * destruct (feed d1 (List.concat rest)) as [f2 d2].
        unfold finish. cbn [fst snd]. rewrite app_assoc. reflexivity.
      * rewrite app_assoc, Hp, <- app_assoc in Hno.
        exact (has_crcrlf_suffix _ _ Hno).
    + lia.
    + constructor.
    + simpl. rewrite app_assoc in Hno. exact (has_crcrlf_prefix _ _ Hno).
Qed.

(** Chunk boundaries do not matter for a byte sequence in which [\r\r] is
    never followed by [\n]: two sources with the same bytes yield the same
    frames and the same events. *)
Theorem chunking_irrelevant_without_crcrlf (source1 source2 : list bytes) :
  List.concat source1 = List.concat source2 ->
  has_crcrlf (List.concat source1) = false ->
  _read source1 = _read source2 /\ events source1 = events source2.
Proof.
  intros Heq Hno.
  assert (H : _read source1 = _read source2).
  { unfold _read. rewrite !read_from_feed.
    - rewrite Heq. reflexivity.
    - simpl. rewrite <- Heq. exact Hno.
    - simpl. exact Hno. }
  split; [exact H|]. unfold events. rewrite H. reflexivity.
Qed.

(** Two frames in three chunks, and the same bytes in one chunk. *)
Lemma chunking_irrelevant_without_crcrlf_witness :
  let chunks := [b "data: A" ++ [LF]; [LF] ++ b "da"; b "ta: B" ++ [LF; LF]] in
  let whole := [b "data: A" ++ [LF; LF] ++ b "data: B" ++ [LF; LF]] in
  _read chunks = _read whole /\ events chunks = events whole.
Proof.
  apply (@chunking_irrelevant_without_crcrlf
           [b "data: A" ++ [LF]; [LF] ++ b "da"; b "ta: B" ++ [LF; LF]]
           [b "data: A" ++ [LF; LF] ++ b "data: B" ++ [LF; LF]]).
  - reflexivity.
  - reflexivity.
Defined.

(** C1 fails on the code: the bytes [data: a\r\r\ndata: b\n\n] yield one
    event (data [a\nb]) when they arrive in one chunk, where [\r\n] is
    one line end and [\r\r] is never at the end of the buffer, and two
    events (data [a], data [b]) when a chunk ends after [\r\r] or each
    byte is a chunk. *)
Theorem chunk_boundary_changes_events :
  let whole := b "data: a" ++ [CR; CR; LF] ++ b "data: b" ++ [LF; LF] in
  let part1 := b "data: a" ++ [CR; CR] in
  let part2 := [LF] ++ b "data: b" ++ [LF; LF] in
  let ev d := {| id := PyNone; event := u "message"; data := d; retry := PyNone |} in
  part1 ++ part2 = whole
  /\ events [whole] = ([ev (u "a" ++ NL ++ u "b")], Exhausted)
  /\ events [part1; part2] = ([ev (u "a"); ev (u "b")], Exhausted)
  /\ events (map (fun c => [c]) whole) = ([ev (u "a"); ev (u "b")], Exhausted)
  /\ events [whole] <> events [part1; part2].
Proof.
  cbv zeta. split; [reflexivity|]. split; [reflexivity|].
  split; [reflexivity|]. split; [reflexivity|]. discriminate.
Qed.

End ChunkProps.

(** ** More on the frame reassembler *)

Module ReassemblerProps.

Import SSEClient Frame EqProps.

(** With [keepends], the lines of [splitlines] are the bytes they were cut
    from. *)
Lemma splitlines_keepends_concat (n : nat) :
  forall s cur,
    List.length s <= n ->
    List.concat (splitlines_from true cur s) = cur ++ s.
Proof.
  induction n as [|n IH]; intros s cur Hlen.
  - destruct s as [|c s']; [|simpl in Hlen; lia].
    simpl. destruct cur; simpl; rewrite ?app_nil_r; reflexivity.
  - destruct s as [|c s'].
    { simpl. destruct cur; simpl; rewrite ?app_nil_r; reflexivity. }
    simpl in Hlen. simpl splitlines_from.
    destruct (Byte.eqb c LF).
    { cbn [List.concat]. rewrite IH by lia. rewrite <- app_assoc. reflexivity. }
    destruct (Byte.eqb c CR).
    + destruct s' as [|d s''].
      * simpl. rewrite app_nil_r. reflexivity.
      * destruct (Byte.eqb d LF); cbn [List.concat].
        -- simpl in Hlen. rewrite IH by lia. rewrite <- app_assoc. reflexivity.
        -- rewrite IH by lia. rewrite <- app_assoc. reflexivity.
    + rewrite IH by lia. rewrite <- app_assoc. reflexivity.
Qed.

Lemma read_lines_concat (lines : list bytes) :
  forall data frames data',
    read_lines data lines = (frames, data') ->
    List.concat frames ++ data' = data ++ List.concat lines.
Proof.
  induction lines as [|line rest IH]; intros data frames data' H.
  - inversion H; subst. simpl. rewrite app_nil_r. reflexivity.
  - simpl in H. destruct (endswith (data ++ line) delimiters).
    + destruct (read_lines [] rest) as [fs d] eqn:E. inversion H; subst.
      cbn [List.concat]. rewrite <- !app_assoc. rewrite (IH _ _ _ E).
      reflexivity.
    + rewrite (IH _ _ _ H). cbn [List.concat]. rewrite app_assoc. reflexivity.
Qed.

Lemma read_from_concat (event_source : list bytes) :
  forall data,
    List.concat (read_from data event_source) = data ++ List.concat event_source.
Proof.
  induction event_source as [|chunk rest IH]; intros data.
  - simpl. destruct data; simpl; rewrite ?app_nil_r; reflexivity.
  - cbn [read_from List.concat].
    destruct (read_lines data (splitlines true chunk)) as [fs d] eqn:E.
    apply read_lines_concat in E. unfold splitlines in E.
    rewrite (@splitlines_keepends_concat (List.length chunk)) in E by lia.
    simpl in E. rewrite concat_app, IH, app_assoc, E, app_assoc. reflexivity.
Qed.

(** [_read] neither drops nor adds a byte: the frames it yields, put end
    to end, are the chunks of the source put end to end. *)
Theorem read_conserves_bytes (event_source : list bytes) :
  List.concat (_read event_source) = List.concat event_source.
Proof. unfold _read. apply read_from_concat. Qed.

(** [_read] never yields an empty frame. *)
Theorem read_frames_nonempty (event_source : list bytes) :
  Forall (fun frame => frame <> []) (_read event_source).
Proof.
  unfold _read.
  destruct (ReadProps.read_from_shape event_source [] ReadProps.endswith_nil)
    as (complete & residual & -> & Hc & Hr).
  apply Forall_app. split.
  - eapply Forall_impl; [|exact Hc]. intros f Hf ->. discriminate Hf.
  - destruct Hr as [-> | (r & -> & Hne & _)]; [constructor|].
    constructor; [exact Hne | constructor].
Qed.

Lemma read_from_skips_empty (event_source : list bytes) :
  forall data,
    read_from data (filter (@nonempty byte) event_source)
    = read_from data event_source.
Proof.
  induction event_source as [|chunk rest IH]; intros data.
  - reflexivity.
  - destruct chunk as [|c chunk'].
    + simpl. apply IH.
    + cbn [filter nonempty read_from].
      destruct (read_lines data (splitlines true (c :: chunk'))) as [fs d].
      rewrite IH. reflexivity.
Qed.

(** Empty chunks are ignored: removing them from the source changes
    neither the frames nor the events. *)
Theorem empty_chunks_ignored (event_source : list bytes) :
  _read (filter (@nonempty byte) event_source) = _read event_source
  /\ events (filter (@nonempty byte) event_source) = events event_source.
Proof.
  assert (H : _read (filter (@nonempty byte) event_source) = _read event_source)
    by apply read_from_skips_empty.
  split; [exact H|]. unfold events. rewrite H. reflexivity.
Qed.

End ReassemblerProps.

(** ** More on the event decoder *)

Module DecoderProps.

Import SSEClient Frame EqProps.

Lemma events_of_app (frames1 frames2 : list bytes) :
  events_of (frames1 ++ frames2) =
  match events_of frames1 with
  | (es1, Raised) => (es1, Raised)
  | (es1, Exhausted) =>
      let (es2, r) := events_of frames2 in (es1 ++ es2, r)
  end.
Proof.
  induction frames1 as [|f rest IH]; simpl.
  - destruct (events_of frames2); reflexivity.
  - destruct (event_of_chunk f) as [[e|]|]; [| exact IH | reflexivity].
    rewrite IH. destruct (events_of rest) as [es1 [|]]; [|reflexivity].
    destruct (events_of frames2); reflexivity.
Qed.

(** The decoder keeps no state from one frame to the next: as long as
    no line fails to decode, the events of a sequence of frames are the
    events of its first part followed by the events of the rest. *)
Theorem events_of_frames_compose (frames1 frames2 : list bytes) :
  snd (events_of frames1) = Exhausted ->
  events_of (frames1 ++ frames2) =
  (fst (events_of frames1) ++ fst (events_of frames2),
   snd (events_of frames2)).
Proof.
  intros H. rewrite events_of_app.
  destruct (events_of frames1) as [es1 r1]. simpl in H. subst r1.
  destruct (events_of frames2); reflexivity.
Qed.

(** Two frames after one, the second of them with no data. *)
Lemma events_of_frames_compose_witness :
  events_of ([Sample.data_frame "A"]
             ++ [b "event: ping" ++ [LF; LF]; Sample.data_frame "B"]) =
  ([Sample.message (u "A"); Sample.message (u "B")], Exhausted).
Proof.
  apply (@events_of_frames_compose
           [Sample.data_frame "A"]
           [b "event: ping" ++ [LF; LF]; Sample.data_frame "B"]).
  reflexivity.
Defined.

(** A frame with a line that is not valid UTF-8 ends the generator with
    the decoding error: the events of the frames before it have been
    yielded, those of the frames after it never are. *)
Theorem undecodable_frame_ends_stream (frames1 : list bytes) (bad : bytes)
  (frames2 : list bytes) :
  snd (events_of frames1) = Exhausted ->
  decoded_lines bad = None ->
  events_of (frames1 ++ bad :: frames2) = (fst (events_of frames1), Raised).
Proof.
  intros H Hbad. rewrite events_of_app.
  destruct (events_of frames1) as [es1 r1]. simpl in H. subst r1.
  cbn [events_of fst]. unfold event_of_chunk.
  rewrite (DecodeProps.process_lines_undecoded _ EventClass.init Hbad).
  simpl. rewrite app_nil_r. reflexivity.
Qed.

(** The byte [ff] in the second of three frames. *)
Lemma undecodable_frame_ends_stream_witness :
  events_of ([Sample.data_frame "A"]
             ++ (b "data: " ++ [xff; LF; LF]) :: [Sample.data_frame "B"]) =
  ([Sample.message (u "A")], Raised).
Proof.
  apply (@undecodable_frame_ends_stream
           [Sample.data_frame "A"] (b "data: " ++ [xff; LF; LF])
           [Sample.data_frame "B"]).
  - reflexivity.
  - reflexivity.
Defined.

Lemma assign_event (e : Event) (f v : str) :
  event (assign e f v) = if str_eqb f (u "event") then v else event e.
Proof.
  unfold assign, EventClass.set_item.
  destruct (str_eqb f (u "event")) eqn:Hf.
  - apply str_eqb_eq in Hf; subst f; reflexivity.
  - destruct (str_eqb f (u "data")), (str_eqb f (u "id")),
      (str_eqb f (u "retry")); reflexivity.
Qed.

Lemma assign_id (e : Event) (f v : str) :
  id (assign e f v) = if str_eqb f (u "id") then PyStr v else id e.
Proof.
  unfold assign, EventClass.set_item.
  destruct (str_eqb f (u "id")) eqn:Hf.
  - apply str_eqb_eq in Hf; subst f; reflexivity.
  - destruct (str_eqb f (u "data")), (str_eqb f (u "event")),
      (str_eqb f (u "retry")); reflexivity.
Qed.

Lemma fold_event (lines : list str) :
  forall e,
    event (fold_left process_line lines e) =
    match last_of (values_of (u "event") lines) with
    | Some v => v
    | None => event e
    end.
Proof.
  induction lines as [|l rest IH]; intros e; simpl.
  - reflexivity.
  - rewrite IH, DecodeProps.process_line_field.
    destruct (field_value l) as [[f v]|]; [|reflexivity].
    rewrite assign_event.
    destruct (str_eqb f (u "event")); [|reflexivity].
    simpl. destruct (last_of (values_of (u "event") rest)); reflexivity.
Qed.

Lemma fold_id (lines : list str) :
  forall e,
    id (fold_left process_line lines e) =
    match last_of (values_of (u "id") lines) with
    | Some v => PyStr v
    | None => id e
    end.
Proof.
  induction lines as [|l rest IH]; intros e; simpl.
  - reflexivity.
  - rewrite IH, DecodeProps.process_line_field.
    destruct (field_value l) as [[f v]|]; [|reflexivity].
    rewrite assign_id.
    destruct (str_eqb f (u "id")); [|reflexivity].
    simpl. destruct (last_of (values_of (u "id") rest)); reflexivity.
Qed.

(** The event name of the event a frame yields is the value of the last
    [event] line of the frame; when there is none, or when that value is
    empty, it is [message]. *)
Theorem event_name_is_last_or_message
  (chunk : bytes) (lines : list str) (e : Event) :
  decoded_lines chunk = Some lines ->
  event_of_chunk chunk = Some (Some e) ->
  event e = Describe.event_name (last_of (values_of (u "event") lines)).
Proof.
  intros H He. rewrite (DecodeProps.event_of_chunk_decoded _ H) in He.
  unfold dispatch in He.
  destruct (negb (nonempty (data (fold_left process_line lines EventClass.init))));
    [discriminate|].
  inversion He; subst e. cbn [event]. rewrite fold_event.
  unfold Describe.event_name.
  destruct (last_of (values_of (u "event") lines)); reflexivity.
Qed.

(** Two [event] lines, the second one wins; then an empty last one. *)
Lemma event_name_is_last_or_message_witness :
  let frame1 :=
    b "event: a" ++ [LF] ++ b "data: x" ++ [LF] ++ b "event: b" ++ [LF; LF] in
  let frame2 :=
    b "event: a" ++ [LF] ++ b "data: x" ++ [LF] ++ b "event:" ++ [LF; LF] in
  let ev name := {| id := PyNone; event := name; data := u "x"; retry := PyNone |} in
  (event_of_chunk frame1 = Some (Some (ev (u "b")))
   /\ event (ev (u "b")) = u "b")
  /\ (event_of_chunk frame2 = Some (Some (ev (u "message")))
      /\ event (ev (u "message")) = u "message").
Proof.
  cbv zeta. split; (split; [reflexivity|]).
  - apply (@event_name_is_last_or_message
             (b "event: a" ++ [LF] ++ b "data: x" ++ [LF] ++ b "event: b" ++ [LF; LF])
             [u "event: a"; u "data: x"; u "event: b"; []]);
      reflexivity.
  - apply (@event_name_is_last_or_message
             (b "event: a" ++ [LF] ++ b "data: x" ++ [LF] ++ b "event:" ++ [LF; LF])
             [u "event: a"; u "data: x"; u "event:"; []]);
      reflexivity.
Defined.

(** The [id] of the event a frame yields is the value of the last [id]
    line of the frame, and [None] when the frame has none; an [id] is
    never carried over from an earlier frame. *)
Theorem event_id_is_last_id
  (chunk : bytes) (lines : list str) (e : Event) :
  decoded_lines chunk = Some lines ->
  event_of_chunk chunk = Some (Some e) ->
  id e =
  match last_of (values_of (u "id") lines) with
  | Some v => PyStr v
  | None => PyNone
  end.
Proof.
  intros H He. rewrite (DecodeProps.event_of_chunk_decoded _ H) in He.
  unfold dispatch in He.
  destruct (negb (nonempty (data (fold_left process_line lines EventClass.init))));
    [discriminate|].
  inversion He; subst e. cbn [id]. rewrite fold_id. reflexivity.
Qed.

(** Two [id] lines around a [data] line. *)
Lemma event_id_is_last_id_witness :
  let frame := b "id: 1" ++ [LF] ++ b "data: x" ++ [LF] ++ b "id: 2" ++ [LF; LF] in
  let e := {| id := PyStr (u "2"); event := u "message"; data := u "x";
              retry := PyNone |} in
  event_of_chunk frame = Some (Some e) /\ id e = PyStr (u "2").
Proof.
  split; [reflexivity|].
  apply (@event_id_is_last_id
           (b "id: 1" ++ [LF] ++ b "data: x" ++ [LF] ++ b "id: 2" ++ [LF; LF])
           [u "id: 1"; u "data: x"; u "id: 2"; []]);
    reflexivity.
Defined.

Lemma dispatch_event_nonempty (e e' : Event) :
  dispatch e = Some e' -> event e' <> [].
Proof.
  unfold dispatch. destruct (negb (nonempty (data e))); [discriminate|].
  intros H. inversion H; subst e'. cbn [event].
  destruct (event e); simpl; discriminate.
Qed.

Lemma events_of_event_nonempty (frames : list bytes) :
  Forall (fun e => event e <> []) (fst (events_of frames)).
Proof.
  induction frames as [|f rest IH]; simpl.
  - constructor.
  - unfold event_of_chunk.
    destruct (process_lines EventClass.init (splitlines false f)) as [e0|];
      simpl; [|constructor].
    destruct (dispatch e0) as [e|] eqn:E; [|exact IH].
    destruct (events_of rest) as [es r]. simpl in *.
    constructor; [exact (dispatch_event_nonempty _ E) | exact IH].
Qed.

(** Whatever the source holds, no event that [events] yields has an
    empty event name. *)
Theorem events_never_unnamed (event_source : list bytes) :
  Forall (fun e => event e <> []) (fst (events event_source)).
Proof. apply events_of_event_nonempty. Qed.

Lemma forallb_as_Forall {A} (f : A -> bool) (l : list A) :
  forallb f l = true <-> Forall (fun x => f x = true) l.
Proof.
  induction l as [|a l IH]; simpl.
  - split; [constructor | reflexivity].
  - rewrite andb_true_iff, IH. split.
    + intros [Ha Hl]. constructor; assumption.
    + intros H. inversion H; subst. split; assumption.
Qed.

Lemma decode_ascii (s : bytes) :
  forallb Describe.is_ascii s = true -> decode s = Some (map Byte.to_N s).
Proof.
  induction s as [|c s IH]; intros H; [reflexivity|].
  simpl in H. apply andb_true_iff in H. destruct H as [Hc Hs].
  unfold Describe.is_ascii in Hc. simpl. rewrite Hc, (IH Hs). reflexivity.
Qed.

(** The lines of [splitlines] are made of bytes of the text. *)
Lemma splitlines_forall (P : byte -> Prop) (keepends : bool) (n : nat) :
  forall s cur,
    List.length s <= n -> Forall P cur -> Forall P s ->
    Forall (Forall P) (splitlines_from keepends cur s).
Proof.
  assert (Hk : forall cur t, Forall P cur -> Forall P t ->
                 Forall P (cur ++ (if keepends then t else []))).
  { intros cur t Hc Ht. apply Forall_app. split; [exact Hc|].
    destruct keepends; [exact Ht | constructor]. }
  induction n as [|n IH]; intros s cur Hlen Hcur Hs.
  - destruct s as [|c s']; [|simpl in Hlen; lia].
    simpl. destruct cur; simpl; [constructor|].
    constructor; [assumption | constructor].
  - destruct s as [|c s'].
    { simpl. destruct cur; simpl; [constructor|].
      constructor; [assumption | constructor]. }
    simpl in Hlen. inversion Hs as [|? ? Pc Ps']; subst. simpl.
    destruct (Byte.eqb c LF).
    { constructor; [apply Hk; auto | apply IH; [lia | constructor | exact Ps']]. }
    destruct (Byte.eqb c CR).
    + destruct s' as [|d s''].
      * constructor; [apply Hk; auto | constructor].
      * inversion Ps' as [|? ? Pd Ps'']; subst. simpl in Hlen.
        destruct (Byte.eqb d LF).
        -- constructor; [apply Hk; auto
                        | apply IH; [lia | constructor | exact Ps'']].
        -- constructor; [apply Hk; auto
                        | apply IH; [simpl; lia | constructor | exact Ps']].
    + apply IH; [lia | | exact Ps'].
      apply Forall_app. split; [exact Hcur | auto].
Qed.

Lemma process_lines_ascii (lines : list bytes) :
  Forall (fun l => forallb Describe.is_ascii l = true) lines ->
  forall e, process_lines e lines <> None.
Proof.
  induction 1 as [|l rest Hl _ IH]; intros e; simpl.
  - discriminate.
  - rewrite (decode_ascii _ Hl). apply IH.
Qed.

Lemma events_of_ascii (frames : list bytes) :
  Forall (fun f => forallb Describe.is_ascii f = true) frames ->
  snd (events_of frames) = Exhausted.
Proof.
  induction 1 as [|f rest Hf _ IH]; simpl; [reflexivity|].
  unfold event_of_chunk.
  destruct (process_lines EventClass.init (splitlines false f)) as [e0|] eqn:E.
  - simpl. destruct (dispatch e0); [|exact IH].
    destruct (events_of rest). exact IH.
  - exfalso. revert E. apply process_lines_ascii.
    apply forallb_as_Forall in Hf.
    pose proof (@splitlines_forall (fun c => Describe.is_ascii c = true) false
                  (List.length f) f [] (le_n _) (Forall_nil _) Hf) as Hl.
    eapply Forall_impl; [|exact Hl].
    intros l Pl. apply forallb_as_Forall. exact Pl.
Qed.

(** A source of ASCII bytes only never makes [events] raise: the
    generator runs to the end of the source. *)
Theorem ascii_source_never_raises (event_source : list bytes) :
  forallb Describe.is_ascii (List.concat event_source) = true ->
  snd (events event_source) = Exhausted.
Proof.
  intros H. unfold events. apply events_of_ascii.
  change (List.concat event_source) with ([] ++ List.concat event_source) in H.
  rewrite <- (ReassemblerProps.read_from_concat event_source []) in H.
  apply forallb_as_Forall in H.
  apply Forall_concat in H.
  eapply Forall_impl; [|exact H].
  intros f Pf. apply forallb_as_Forall. exact Pf.
Qed.

(** Two chunks of ASCII text, with a field the decoder does not know. *)
Lemma ascii_source_never_raises_witness :
  snd (events [b "data: A" ++ [LF]; b "x-vendor: 1" ++ [LF; LF]]) = Exhausted.
Proof.
  apply (@ascii_source_never_raises
           [b "data: A" ++ [LF]; b "x-vendor: 1" ++ [LF; LF]]).
  reflexivity.
Defined.

End DecoderProps.

(** ** More on the forwarder *)

Module ForwarderProps.

Import Frame Describe.

Lemma dict_of_items_get (keep : string -> bool) (items : list (string * string))
  (k : string) :
  forall d0,
    dict_get
      (fold_left
         (fun d kv => if keep (fst kv) then dict_set d (fst kv) (snd kv) else d)
         items d0) k =
    if keep k then
      match last_item k items with
      | Some v => Some v
      | None => dict_get d0 k
      end
    else dict_get d0 k.
Proof.
  induction items as [|[k' v'] rest IH]; intros d0; simpl.
  - destruct (keep k); reflexivity.
  - rewrite IH. destruct (keep k) eqn:Ek.
    + destruct (last_item k rest); [reflexivity|].
      destruct (keep k') eqn:Ek'.
      * rewrite ProxyProps.dict_get_set.
        destruct (String.eqb k' k); reflexivity.
      * destruct (String.eqb k' k) eqn:E; [|reflexivity].
        apply String.eqb_eq in E. subst k'. congruence.
    + destruct (keep k') eqn:Ek'; [|reflexivity].
      rewrite ProxyProps.dict_get_set.
      destruct (String.eqb k' k) eqn:E; [|reflexivity].
      apply String.eqb_eq in E. subst k'. congruence.
Qed.

(** The headers of the outbound request: a header named exactly [Host] or
    [Accept-Encoding] is never forwarded; every other name is forwarded
    with the value of its last occurrence among the inbound headers.  The
    test is on the name as written: [host] in lower case is forwarded. *)
Theorem outbound_headers_lookup (request : Request) (k : string) :
  dict_get (out_headers (outbound request)) k =
  if mem k IGNORE_REQUEST_HEADERS then None
  else last_item k (headers request).
Proof.
  pose proof (dict_of_items_get
                (fun key => negb (mem key IGNORE_REQUEST_HEADERS))
                (headers request) k []) as H.
  unfold outbound, dict_of_items. cbn [out_headers].
  cbv beta in H. rewrite H. simpl dict_get.
  destruct (mem k IGNORE_REQUEST_HEADERS); simpl; [reflexivity|].
  destruct (last_item k (headers request)); reflexivity.
Qed.

Lemma dict_set_keys {V} (d : dict V) (k : string) (v : V) :
  map fst (dict_set d k v) =
  if existsb (String.eqb k) (map fst d) then map fst d else map fst d ++ [k].
Proof.
  induction d as [|[k' v'] d IH]; simpl; [reflexivity|].
  destruct (String.eqb k' k) eqn:E.
  - apply String.eqb_eq in E. subst k'. rewrite String.eqb_refl. reflexivity.
  - rewrite String.eqb_sym, E. simpl. rewrite IH.
    destruct (existsb (String.eqb k) (map fst d)); reflexivity.
Qed.

Lemma dict_set_nodup {V} (d : dict V) (k : string) (v : V) :
  NoDup (map fst d) -> NoDup (map fst (dict_set d k v)).
Proof.
  intros H. rewrite dict_set_keys.
  destruct (existsb (String.eqb k) (map fst d)) eqn:E; [exact H|].
  apply NoDup_app; [exact H | repeat constructor; intros [] |].
  intros x Hx [Hk | []]. subst x.
  assert (existsb (String.eqb k) (map fst d) = true); [|congruence].
  apply existsb_exists. exists k. split; [exact Hx | apply String.eqb_refl].
Qed.

(** The outbound headers hold each name once, however often the inbound
    request repeats it. *)
Theorem outbound_headers_unique (request : Request) :
  NoDup (map fst (out_headers (outbound request))).
Proof.
  unfold outbound, dict_of_items. cbn [out_headers].
  generalize (headers request) as items.
  assert (H : NoDup (map fst (@nil (string * string)))) by constructor.
  revert H. generalize (@nil (string * string)) as d0.
  intros d0 H items. revert d0 H.
  induction items as [|[k v] rest IH]; intros d0 H; [exact H|].
  cbn [fold_left fst snd]. apply IH.
  destruct (negb (mem k IGNORE_REQUEST_HEADERS)); [|exact H].
  apply dict_set_nodup. exact H.
Qed.

Lemma prefix_append (old s : string) : String.prefix old (old ++ s) = true.
Proof.
  induction old as [|c old IH]; simpl.
  - destruct s; reflexivity.
  - destruct (ascii_dec c c) as [_|Hne]; [exact IH | contradiction].
Qed.

Lemma replace_from_skip (old new t s : string) :
  replace_from old new (String.length t) (t ++ s) = replace_from old new 0 s.
Proof. induction t as [|c t IH]; simpl; auto. Qed.

Lemma replace_at_prefix (old new s : string) :
  old <> EmptyString ->
  replace (old ++ s) old new = (new ++ replace s old new)%string.
Proof.
  intros Hne. destruct old as [|c old]; [contradiction|].
  unfold replace.
  change ((String c old ++ s)%string) with (String c (old ++ s)).
  cbn [replace_from].
  change (String c (old ++ s)) with ((String c old ++ s)%string).
  rewrite prefix_append.
  replace (String.length (String c old) - 1) with (String.length old)
    by (simpl; lia).
  rewrite replace_from_skip. reflexivity.
Qed.

(** When the URL of the inbound request starts with its [host_url], the
    outbound URL starts with the upstream base instead; [str.replace]
    rewrites every later occurrence of [host_url] in the path and query
    as well. *)
Theorem outbound_url_swaps_authority (request : Request) (path : string) :
  host_url request <> EmptyString ->
  url request = (host_url request ++ path)%string ->
  out_url (outbound request) =
  (upstream_base ++ replace path (host_url request) upstream_base)%string.
Proof.
  intros Hne Hu. unfold outbound. cbn [out_url].
  rewrite Hu. apply replace_at_prefix. exact Hne.
Qed.

(** A path that repeats the proxy's own URL in its query. *)
Lemma outbound_url_swaps_authority_witness :
  out_url
    (outbound
       {| method := "GET";
          url := "http://p.example/v1/x?next=http://p.example/v1/y";
          host_url := "http://p.example/";
          headers := [];
          get_data := [];
          get_json := None |})
  = "https://api.openai.com/v1/x?next=https://api.openai.com/v1/y"%string.
Proof.
  apply (@outbound_url_swaps_authority
           {| method := "GET";
              url := "http://p.example/v1/x?next=http://p.example/v1/y";
              host_url := "http://p.example/";
              headers := [];
              get_data := [];
              get_json := None |}
           "v1/x?next=http://p.example/v1/y").
  - discriminate.
  - reflexivity.
Defined.

Section WithDecompressors.

Variables brotli gzip zlib : bytes -> option bytes.

Local Abbreviation log_response := (Forwarder.log_response brotli gzip zlib).

(** [log_response] picks the decompressor by the value of the last header
    line whose name is [content-encoding] in any letter case; the value
    itself is compared as written. *)
Theorem log_response_uses_last_content_encoding (resp : Response) :
  log_response resp =
  Forwarder.decompress brotli gzip zlib (declared_encoding resp) (content resp).
Proof. apply ProxyProps.log_response_declared. Qed.


End WithDecompressors.


End ForwarderProps.

(** ** The UTF-8 codec *)

Module CodecProps.

Import Describe.

Lemma encode_char_eq (c : N) :
  encode_char c =
  if (c <? 0x80)%N then Some [byte_of c]
  else if (c <? 0x800)%N then
    Some [byte_of (N.lor 0xC0 (N.shiftr c 6)); cont c]
  else if (0xD800 <=? c)%N && (c <=? 0xDFFF)%N then None
  else if (c <? 0x10000)%N then
    Some [byte_of (N.lor 0xE0 (N.shiftr c 12)); cont (N.shiftr c 6); cont c]
  else if (c <? 0x110000)%N then
    Some [byte_of (N.lor 0xF0 (N.shiftr c 18)); cont (N.shiftr c 12);
          cont (N.shiftr c 6); cont c]
  else None.
Proof. reflexivity. Qed.

Local Open Scope N_scope.

Lemma testbit_small (r k n : N) : r < 2 ^ k -> k <= n -> N.testbit r n = false.
Proof.
  intros Hr Hk. destruct (N.eq_dec r 0) as [->|Hne]; [apply N.bits_0|].
  apply N.bits_above_log2.
  assert (N.log2 r < k) by (apply N.log2_lt_pow2; lia). lia.
Qed.

Lemma lor_shiftl (a k r : N) : r < 2 ^ k -> N.lor (N.shiftl a k) r = a * 2 ^ k + r.
Proof.
  intros Hr.
  assert (H0 : N.land (N.shiftl a k) r = 0).
  { apply N.bits_inj_0. intros n. rewrite N.land_spec.
    destruct (N.lt_ge_cases n k) as [Hlt | Hge].
    - rewrite N.shiftl_spec_low by exact Hlt. reflexivity.
    - rewrite (@testbit_small r k n Hr Hge). apply andb_false_r. }
  rewrite <- N.lxor_lor by exact H0.
  rewrite <- N.add_nocarry_lxor by exact H0.
  rewrite N.shiftl_mul_pow2. reflexivity.
Qed.

Lemma to_N_byte_of (n : N) : n < 256 -> Byte.to_N (byte_of n) = n.
Proof.
  intros H. unfold byte_of. destruct (Byte.of_N n) as [x|] eqn:E.
  - apply Byte.to_of_N. exact E.
  - apply Byte.of_N_None_iff in E. lia.
Qed.

(** The low six bits and the rest. *)
Lemma split6 (c : N) :
  exists q r, c = 64 * q + r /\ r < 64 /\ N.shiftr c 6 = q /\ N.land c 0x3F = r.
Proof.
  exists (c / 64), (c mod 64). split; [apply N.div_mod; discriminate|].
  split; [apply N.mod_lt; discriminate|]. split.
  - rewrite N.shiftr_div_pow2. reflexivity.
  - change 0x3F with (N.ones 6). rewrite N.land_ones. reflexivity.
Qed.

Lemma land_low (hi k r : N) : r < 2 ^ k -> N.land (hi * 2 ^ k + r) (N.ones k) = r.
Proof.
  intros Hr. rewrite N.land_ones. symmetry.
  apply (N.mod_unique _ _ hi); [exact Hr | apply (f_equal (fun t => t + r)), N.mul_comm].
Qed.

Lemma to_N_cont (n r : N) :
  N.land n 0x3F = r -> r < 64 -> Byte.to_N (cont n) = 128 + r.
Proof.
  intros Hn Hr. unfold cont. rewrite Hn.
  replace (N.lor 0x80 r) with (128 + r)
    by (symmetry; exact (@lor_shiftl 2 6 r Hr)).
  apply to_N_byte_of. lia.
Qed.

Lemma cont_facts (x : byte) (r : N) :
  Byte.to_N x = 128 + r -> r < 64 -> is_cont x = true /\ cont_bits x = r.
Proof.
  intros Hx Hr. unfold is_cont, cont_bits. rewrite Hx. split.
  - apply andb_true_iff. split; apply N.leb_le; lia.
  - change 0x3F with (N.ones 6).
    change (128 + r) with (2 * 2 ^ 6 + r). apply land_low. exact Hr.
Qed.
Lemma some_inj {A} (x y : A) : Some x = Some y -> x = y.
Proof. intros H. inversion H. reflexivity. Qed.

Lemma to_N_lead (base tag k bound a : N) :
  base = tag * 2 ^ k -> bound = 2 ^ k -> a < bound -> base + a < 256 ->
  Byte.to_N (byte_of (N.lor base a)) = base + a.
Proof.
  intros -> -> Ha Hb.
  replace (N.lor (tag * 2 ^ k) a) with (tag * 2 ^ k + a).
  - apply to_N_byte_of. exact Hb.
  - rewrite <- (@lor_shiftl tag k a Ha), N.shiftl_mul_pow2. reflexivity.
Qed.

Lemma encode_char_form (c : N) (cs : bytes) :
  encode_char c = Some cs -> utf8_form c cs.
Proof.
  rewrite encode_char_eq.
  destruct (N.ltb_spec c 0x80) as [H1|H1].
  { intros E. apply some_inj in E. subst cs. eapply Form1; [reflexivity | | exact H1].
    apply to_N_byte_of. lia. }
  destruct (split6 c) as (q1 & r & Hc & Hr & Hs1 & Hl1).
  destruct (N.ltb_spec c 0x800) as [H2|H2].
  { intros E. apply some_inj in E. subst cs. rewrite Hs1.
    eapply Form2 with (q := q1) (r := r); [reflexivity | | | lia | exact Hr | exact Hc].
    - apply (@to_N_lead 192 6 5 32 q1); [reflexivity | reflexivity | lia | lia].
    - apply to_N_cont; assumption. }
  destruct (split6 q1) as (q2 & b0 & Hq1 & Hb0 & Hs2 & Hl2).
  assert (Hs12 : N.shiftr c 12 = q2).
  { change 12 with (6 + 6). rewrite <- N.shiftr_shiftr, Hs1. exact Hs2. }
  destruct ((0xD800 <=? c) && (c <=? 0xDFFF)) eqn:Hsur; [discriminate|].
  assert (Hns : c < 0xD800 \/ 0xDFFF < c).
  { apply andb_false_iff in Hsur. destruct Hsur as [H|H].
    - left. apply N.leb_gt. exact H.
    - right. apply N.leb_gt. exact H. }
  destruct (N.ltb_spec c 0x10000) as [H3|H3].
  { intros E. apply some_inj in E. subst cs. rewrite Hs1, Hs12.
    eapply Form3 with (a := q2) (b0 := b0) (r := r);
      [reflexivity | | | | lia | exact Hb0 | exact Hr | lia | lia | lia].
    - apply (@to_N_lead 224 14 4 16 q2); [reflexivity | reflexivity | lia | lia].
    - apply to_N_cont; assumption.
    - apply to_N_cont; assumption. }
  destruct (split6 q2) as (a & d & Hq2 & Hd & Hs3 & Hl3).
  assert (Hs18 : N.shiftr c 18 = a).
  { change 18 with (12 + 6). rewrite <- N.shiftr_shiftr, Hs12. exact Hs3. }
  destruct (N.ltb_spec c 0x110000) as [H4|H4]; [|discriminate].
  intros E. apply some_inj in E. subst cs. rewrite Hs1, Hs12, Hs18.
  eapply Form4 with (a := a) (b0 := d) (d := b0) (r := r);
    [reflexivity | | | | | lia | exact Hd | exact Hb0 | exact Hr | lia | lia | lia].
  - apply (@to_N_lead 240 30 3 8 a); [reflexivity | reflexivity | lia | lia].
  - apply to_N_cont; assumption.
  - apply to_N_cont; assumption.
  - apply to_N_cont; assumption.
Qed.

Lemma decode_cons (c0 : byte) (s1 : bytes) :
  decode (c0 :: s1) =
  let n0 := Byte.to_N c0 in
  if n0 <? 0x80 then option_map (cons n0) (decode s1)
  else if n0 <? 0xC2 then None
  else if n0 <? 0xE0 then
    match s1 with
    | c1 :: s2 =>
        if is_cont c1 then
          option_map
            (cons (N.lor (N.shiftl (N.land n0 0x1F) 6) (cont_bits c1)))
            (decode s2)
        else None
    | _ => None
    end
  else if n0 <? 0xF0 then
    match s1 with
    | c1 :: c2 :: s3 =>
        let n1 := Byte.to_N c1 in
        if is_cont c1 && is_cont c2
           && negb ((n0 =? 0xE0) && (n1 <? 0xA0))
           && negb ((n0 =? 0xED) && (0xA0 <=? n1)) then
          option_map
            (cons (N.lor (N.shiftl (N.land n0 0x0F) 12)
                     (N.lor (N.shiftl (cont_bits c1) 6) (cont_bits c2))))
            (decode s3)
        else None
    | _ => None
    end
  else if n0 <? 0xF5 then
    match s1 with
    | c1 :: c2 :: c3 :: s4 =>
        let n1 := Byte.to_N c1 in
        if is_cont c1 && is_cont c2 && is_cont c3
           && negb ((n0 =? 0xF0) && (n1 <? 0x90))
           && negb ((n0 =? 0xF4) && (0x90 <=? n1)) then
          option_map
            (cons (N.lor (N.shiftl (N.land n0 0x07) 18)
                     (N.lor (N.shiftl (cont_bits c1) 12)
                        (N.lor (N.shiftl (cont_bits c2) 6) (cont_bits c3)))))
            (decode s4)
        else None
    | _ => None
    end
  else None.
Proof. reflexivity. Qed.

Ltac decide_tests :=
  repeat match goal with
    | |- context [N.ltb ?x ?y] =>
        first [ rewrite (proj2 (N.ltb_lt x y)) by lia
              | rewrite (proj2 (N.ltb_ge x y)) by lia ]
    | |- context [N.leb ?x ?y] =>
        first [ rewrite (proj2 (N.leb_le x y)) by lia
              | rewrite (proj2 (N.leb_gt x y)) by lia ]
    | |- context [N.eqb ?x ?y] =>
        first [ rewrite (proj2 (N.eqb_eq x y)) by lia
              | rewrite (proj2 (N.eqb_neq x y)) by lia ]
    end.

Lemma land_lead (base tag k a : N) (mask : N) :
  base = tag * 2 ^ k -> mask = N.ones k -> a < 2 ^ k ->
  N.land (base + a) mask = a.
Proof. intros -> -> Ha. apply land_low. exact Ha. Qed.

Lemma decode_form (c : N) (cs rest : bytes) :
  utf8_form c cs -> decode (cs ++ rest) = option_map (cons c) (decode rest).
Proof.
  intros [x -> Hx Hc
         | x0 x1 q r -> H0 H1 Hq Hr ->
         | x0 x1 x2 a b0 r -> H0 H1 H2 Ha Hb Hr Hlo Hhi ->
         | x0 x1 x2 x3 a b0 d r -> H0 H1 H2 H3 Ha Hb Hd Hr Hlo Hhi ->].
  - cbn [app]. rewrite decode_cons. cbv zeta. rewrite Hx.
    decide_tests. reflexivity.
  - cbn [app]. rewrite decode_cons. cbv zeta. rewrite H0.
    destruct (@cont_facts x1 r H1 Hr) as [C1 B1].
    rewrite C1, B1. decide_tests.
    rewrite (@land_lead 192 6 5 q 0x1F) by (reflexivity || lia).
    rewrite (@lor_shiftl q 6 r) by exact Hr.
    change (2 ^ 6) with 64. rewrite (N.mul_comm q 64). reflexivity.
  - cbn [app]. rewrite decode_cons. cbv zeta. rewrite H0, H1.
    destruct (@cont_facts x1 b0 H1 Hb) as [C1 B1].
    destruct (@cont_facts x2 r H2 Hr) as [C2 B2].
    rewrite C1, C2, B1, B2.
    assert (T1 : ((224 + a =? 0xE0) && (128 + b0 <? 0xA0)) = false).
    { destruct (N.eqb_spec (224 + a) 0xE0); [|reflexivity].
      cbn [andb]. apply N.ltb_ge. lia. }
    assert (T2 : ((224 + a =? 0xED) && (0xA0 <=? 128 + b0)) = false).
    { destruct (N.eqb_spec (224 + a) 0xED); [|reflexivity].
      cbn [andb]. apply N.leb_gt. lia. }
    rewrite T1, T2. decide_tests. cbn [andb negb].
    rewrite (@land_lead 224 14 4 a 0x0F) by (reflexivity || lia).
    rewrite (@lor_shiftl b0 6 r) by exact Hr.
    rewrite (@lor_shiftl a 12 (b0 * 2 ^ 6 + r)) by (change (2 ^ 6) with 64; change (2 ^ 12) with 4096; lia).
    f_equal. f_equal. change (2 ^ 6) with 64. change (2 ^ 12) with 4096. lia.
  - cbn [app]. rewrite decode_cons. cbv zeta. rewrite H0, H1.
    destruct (@cont_facts x1 b0 H1 Hb) as [C1 B1].
    destruct (@cont_facts x2 d H2 Hd) as [C2 B2].
    destruct (@cont_facts x3 r H3 Hr) as [C3 B3].
    rewrite C1, C2, C3, B1, B2, B3.
    assert (T1 : ((240 + a =? 0xF0) && (128 + b0 <? 0x90)) = false).
    { destruct (N.eqb_spec (240 + a) 0xF0); [|reflexivity].
      cbn [andb]. apply N.ltb_ge. lia. }
    assert (T2 : ((240 + a =? 0xF4) && (0x90 <=? 128 + b0)) = false).
    { destruct (N.eqb_spec (240 + a) 0xF4); [|reflexivity].
      cbn [andb]. apply N.leb_gt. lia. }
    rewrite T1, T2. decide_tests. cbn [andb negb].
    rewrite (@land_lead 240 30 3 a 0x07) by (reflexivity || (change (2 ^ 3) with 8; lia)).
    rewrite (@lor_shiftl d 6 r) by exact Hr.
    rewrite (@lor_shiftl b0 12 (d * 2 ^ 6 + r)) by (change (2 ^ 6) with 64; change (2 ^ 12) with 4096; lia).
    rewrite (@lor_shiftl a 18 (b0 * 2 ^ 12 + (d * 2 ^ 6 + r)))
      by (change (2 ^ 6) with 64; change (2 ^ 12) with 4096;
          change (2 ^ 18) with 262144; lia).
    f_equal. f_equal.
    change (2 ^ 6) with 64. change (2 ^ 12) with 4096.
    change (2 ^ 18) with 262144. lia.
Qed.

Lemma encode_cons (c : N) (s : str) :
  encode (c :: s) =
  match encode_char c, encode s with
  | Some x, Some y => Some (x ++ y)
  | _, _ => None
  end.
Proof. reflexivity. Qed.

Lemma decode_encode_app (s : str) :
  forall bs rest,
    encode s = Some bs ->
    decode (bs ++ rest) = option_map (app s) (decode rest).
Proof.
  induction s as [|c s IH]; intros bs rest H.
  - apply some_inj in H. subst bs. simpl. destruct (decode rest); reflexivity.
  - rewrite encode_cons in H.
    destruct (encode_char c) as [x|] eqn:Ec; [|discriminate].
    destruct (encode s) as [y|] eqn:Es; [|discriminate].
    apply some_inj in H. subst bs.
    rewrite <- app_assoc, (@decode_form c x (y ++ rest) (@encode_char_form c x Ec)).
    rewrite (IH y rest eq_refl). destruct (decode rest); reflexivity.
Qed.

Lemma decode_encoded (s : str) (bs : bytes) :
  encode s = Some bs -> decode bs = Some s.
Proof.
  intros H. rewrite <- (app_nil_r bs), (@decode_encode_app s bs [] H).
  simpl. rewrite app_nil_r. reflexivity.
Qed.

(** The codec round trip: whatever [encode] accepts, [decode] reads back
    as the same text; an encoded text never makes [decode] raise. *)
Theorem decode_encode (s : str) (bs : bytes) :
  encode s = Some bs -> decode bs = Some s.
Proof. apply decode_encoded. Qed.

Lemma encode_app (s1 s2 : str) :
  encode (s1 ++ s2) =
  match encode s1, encode s2 with
  | Some x, Some y => Some (x ++ y)
  | _, _ => None
  end.
Proof.
  induction s1 as [|c s1 IH].
  - simpl. destruct (encode s2); reflexivity.
  - cbn [app]. rewrite !encode_cons, IH.
    destruct (encode_char c), (encode s1), (encode s2);
      rewrite ?app_assoc; reflexivity.
Qed.
Lemma plain_of_to_N (x : byte) :
  Byte.to_N x <> 13 -> Byte.to_N x <> 10 -> Frame.plain x.
Proof. intros H13 H10. split; intros ->; [apply H13 | apply H10]; reflexivity. Qed.

Lemma form_plain (c : N) (cs : bytes) :
  utf8_form c cs -> c <> 10 -> c <> 13 -> Forall Frame.plain cs.
Proof.
  intros [x -> Hx Hc
         | x0 x1 q r -> H0 H1 Hq Hr ->
         | x0 x1 x2 a b0 r -> H0 H1 H2 Ha Hb Hr Hlo Hhi ->
         | x0 x1 x2 x3 a b0 d r -> H0 H1 H2 H3 Ha Hb Hd Hr Hlo Hhi ->] H10 H13;
    repeat constructor; apply plain_of_to_N; lia.
Qed.

Lemma encode_plain (s : str) :
  forall bs, encode s = Some bs -> no_line_break s -> Forall Frame.plain bs.
Proof.
  induction s as [|c s IH]; intros bs H Hs.
  - apply some_inj in H. subst bs. constructor.
  - rewrite encode_cons in H.
    destruct (encode_char c) as [x|] eqn:Ec; [|discriminate].
    destruct (encode s) as [y|] eqn:Es; [|discriminate].
    apply some_inj in H. subst bs. inversion Hs as [|? ? [H10 H13] Hs']; subst.
    apply Forall_app. split.
    + exact (@form_plain c x (@encode_char_form c x Ec) H10 H13).
    + exact (IH y eq_refl Hs').
Qed.

(** The euro sign, an emoji and a letter. *)
Lemma decode_encode_witness :
  decode [xe2; x82; xac; xf0; x9f; x98; x80; x41]
  = Some [0x20AC; 0x1F600; 0x41].
Proof.
  apply (@decode_encode [0x20AC; 0x1F600; 0x41]
           [xe2; x82; xac; xf0; x9f; x98; x80; x41]).
  reflexivity.
Defined.

End CodecProps.

(** ** The relay, end to end *)

Module RelayProps.

Import SSEClient Frame EqProps Describe CodecProps.

Lemma eqb_of_neq (c d : byte) : c <> d -> Byte.eqb c d = false.
Proof.
  intros H. destruct (Byte.eqb c d) eqn:E; [|reflexivity].
  apply Byte.byte_dec_bl in E. contradiction.
Qed.

Lemma splitlines_plain_line (keepends : bool) (l : bytes) :
  Forall plain l ->
  forall cur rest,
    splitlines_from keepends cur (l ++ LF :: rest) =
    (cur ++ l ++ (if keepends then [LF] else []))
      :: splitlines_from keepends [] rest.
Proof.
  induction 1 as [|c l [Hcr Hlf] _ IH]; intros cur rest.
  - reflexivity.
  - cbn [app splitlines_from].
    rewrite (eqb_of_neq Hlf), (eqb_of_neq Hcr), IH, <- app_assoc. reflexivity.
Qed.

Lemma splitlines_frame_of (keepends : bool) (lines : list bytes) :
  Forall (Forall plain) lines ->
  splitlines keepends (Sample.frame_of lines) =
  map (fun l => l ++ (if keepends then [LF] else [])) lines.
Proof.
  unfold splitlines.
  induction 1 as [|l rest Hl _ IH]; [reflexivity|].
  unfold Sample.frame_of in *. cbn [map List.concat].
  rewrite <- app_assoc. cbn [app].
  rewrite (splitlines_plain_line keepends Hl), IH. reflexivity.
Qed.

Lemma endswith_plain_lf (x : bytes) (c : byte) :
  plain c -> endswith (x ++ [c; LF]) delimiters = false.
Proof.
  intros [Hcr Hlf]. apply not_true_is_false.
  rewrite ChunkProps.endswith_delimiters. intros [p [H | [H | H]]].
  - rewrite !ChunkProps.snoc2 in H. apply app_inj_tail in H.
    destruct H as [_ H]. discriminate H.
  - rewrite !ChunkProps.snoc2 in H. apply app_inj_tail in H.
    destruct H as [H _]. apply app_inj_tail in H. tauto.
  - rewrite ChunkProps.snoc2, ChunkProps.snoc4 in H. apply app_inj_tail in H.
    destruct H as [H _].
    change (p ++ [CR; LF; CR]) with (p ++ [CR; LF] ++ [CR]) in H.
    rewrite app_assoc in H. apply app_inj_tail in H. tauto.
Qed.

Lemma endswith_lf_lf (x : bytes) : endswith (x ++ [LF; LF]) delimiters = true.
Proof. apply ChunkProps.endswith_delimiters. exists x. auto. Qed.

Lemma endswith_line_lf (data l : bytes) :
  Forall plain l -> l <> [] -> endswith (data ++ l ++ [LF]) delimiters = false.
Proof.
  intros Hp Hne. destruct l as [|c l' _] using rev_ind; [contradiction|].
  apply Forall_app in Hp. destruct Hp as [_ Hc]. inversion Hc; subst.
  rewrite <- app_assoc. cbn [app]. rewrite app_assoc.
  apply endswith_plain_lf. assumption.
Qed.

(** The lines of a frame with content, read by the line loop: one frame,
    nothing left in the buffer. *)
Lemma read_frame_lines (lines : list bytes) :
  Forall (Forall plain) lines ->
  Forall (fun l => l <> []) lines ->
  lines <> [] ->
  forall data,
    read_lines data (map (fun l => l ++ [LF]) (lines ++ [[]])) =
    ([data ++ Sample.frame_of (lines ++ [[]])], []).
Proof.
  intros Hp Hne. revert Hp.
  induction Hne as [|l rest Hl Hrest IH]; intros Hp Hnil data; [contradiction|].
  inversion Hp as [|? ? Pl Prest]; subst.
  cbn [app map]. rewrite ChunkProps.read_lines_cons.
  rewrite (endswith_line_lf data Pl Hl).
  destruct rest as [|l2 rest'].
  - cbn [app map]. rewrite ChunkProps.read_lines_cons.
    replace ((data ++ l ++ [LF]) ++ [LF]) with ((data ++ l) ++ [LF; LF])
      by (rewrite <- !app_assoc; reflexivity).
    rewrite endswith_lf_lf. cbn [read_lines].
    unfold Sample.frame_of. cbn [map List.concat app].
    rewrite <- !app_assoc. reflexivity.
  - rewrite (IH Prest ltac:(discriminate) (data ++ l ++ [LF])).
    unfold Sample.frame_of. cbn [map List.concat app].
    rewrite <- !app_assoc. reflexivity.
Qed.

Lemma lstrip_snoc (x : str) (c : N) : isspace c = false -> lstrip (x ++ [c]) <> [].
Proof.
  intros Hc. induction x as [|a x IH]; simpl.
  - rewrite Hc. discriminate.
  - destruct (isspace a); [exact IH | discriminate].
Qed.

Lemma strip_nonempty (c : N) (s : str) :
  isspace c = false -> nonempty (strip (c :: s)) = true.
Proof.
  intros Hc. unfold strip. cbn [lstrip]. rewrite Hc. cbn [rev].
  pose proof (@lstrip_snoc (rev s) c Hc) as H.
  destruct (lstrip (rev s ++ [c])) as [|a t]; [contradiction|].
  cbn [rev]. destruct (rev t); reflexivity.
Qed.

Lemma startswith_nil (s : str) : startswith s [] = true.
Proof. destruct s; reflexivity. Qed.

Lemma process_data_line (e : Event) (d : str) :
  process_line e (u "data: " ++ d) =
  EventClass.set_item e (u "data") (data e ++ (d ++ NL)).
Proof.
  change (u "data: " ++ d) with (100 :: 97 :: 116 :: 97 :: 58 :: 32 :: d)%N.
  unfold process_line. rewrite strip_nonempty by reflexivity.
  change (split1 58 (100 :: 97 :: 116 :: 97 :: 58 :: 32 :: d)%N)
    with (u "data", Some (32 :: d)%N).
  change (startswith (100 :: 97 :: 116 :: 97 :: 58 :: 32 :: d)%N (u ":"))
    with false.
  cbn [fst snd negb orb].
  change (EventClass.has_key (u "data")) with true.
  change (str_eqb (u "data") (u "data")) with true.
  cbn [negb].
  change (startswith (32 :: d)%N (u " ")) with (startswith d []).
  rewrite startswith_nil. reflexivity.
Qed.

(** The frame of one [data] line, as lines. *)
Lemma data_frame_lines (wd : bytes) :
  data_frame_of wd = Sample.frame_of ([b "data: " ++ wd] ++ [[]]).
Proof.
  unfold data_frame_of, Sample.frame_of. cbn [app map List.concat].
  rewrite <- !app_assoc. reflexivity.
Qed.

Lemma data_line_plain (wd : bytes) :
  Forall plain wd -> Forall (Forall plain) [b "data: " ++ wd].
Proof.
  intros H. constructor; [|constructor]. apply Forall_app. split; [|exact H].
  repeat constructor; discriminate.
Qed.

Lemma event_of_data_frame (d : str) (wd : bytes) :
  encode d = Some wd -> no_line_break d ->
  event_of_chunk (data_frame_of wd) = Some (Some (Sample.message d)).
Proof.
  intros He Hd. pose proof (encode_plain He Hd) as Hp.
  unfold event_of_chunk. rewrite data_frame_lines.
  rewrite splitlines_frame_of.
  2:{ apply Forall_app. split; [apply data_line_plain; exact Hp|].
      repeat constructor. }
  cbn [app map process_lines]. rewrite !app_nil_r.
  assert (Hl : decode (b "data: " ++ wd) = Some (u "data: " ++ d)).
  { apply decode_encoded. rewrite encode_app, He. reflexivity. }
  rewrite Hl. cbn [decode]. rewrite process_data_line.
  cbn [option_map]. unfold dispatch.
  change (data (process_line _ [])) with ([] ++ (d ++ NL)).
  cbn [app].
  assert (Hne : nonempty (d ++ NL) = true) by (destruct d; reflexivity).
  rewrite Hne, DecodeProps.str_endswith_app. cbn [negb].
  replace (drop_last (d ++ NL)) with d
    by (symmetry; exact (removelast_last d 10%N)).
  reflexivity.
Qed.

Lemma emit_wire (e : Event) (w : bytes) :
  encode (emit e) = Some w ->
  exists wd, encode (data e) = Some wd /\ w = data_frame_of wd.
Proof.
  unfold emit. rewrite !encode_app.
  change (encode (u "data: ")) with (Some (b "data: ")).
  change (encode NL) with (Some [LF]).
  destruct (encode (data e)) as [wd|]; [|discriminate].
  intros H. apply some_inj in H. exists wd. split; [reflexivity|].
  subst w. reflexivity.
Qed.

Lemma no_cr_no_crcrlf (s : bytes) :
  Forall (fun c => c <> CR) s -> has_crcrlf s = false.
Proof.
  induction 1 as [|c s Hc _ IH]; [reflexivity|].
  cbn [has_crcrlf]. rewrite IH, orb_false_r.
  destruct s as [|c2 [|c3 s']]; try reflexivity.
  cbn [starts_crcrlf]. rewrite (eqb_of_neq Hc). reflexivity.
Qed.

Lemma data_frame_no_cr (wd : bytes) :
  Forall plain wd -> Forall (fun c => c <> CR) (data_frame_of wd).
Proof.
  intros H. unfold data_frame_of. apply Forall_app. split.
  - repeat constructor; discriminate.
  - apply Forall_app. split.
    + eapply Forall_impl; [|exact H]. intros c [Hc _]. exact Hc.
    + repeat constructor; discriminate.
Qed.

Lemma feed_data_frame (wd : bytes) :
  Forall plain wd -> feed [] (data_frame_of wd) = ([data_frame_of wd], []).
Proof.
  intros Hp.
  assert (Hno : has_crcrlf ([] ++ [] ++ data_frame_of wd) = false).
  { apply no_cr_no_crcrlf. apply data_frame_no_cr. exact Hp. }
  pose proof (@ChunkProps.read_lines_splitlines_from
                (List.length (data_frame_of wd)) (data_frame_of wd) [] []
                (le_n _) (Forall_nil _) Hno) as H.
  cbn [app] in H. rewrite <- H.
  change (splitlines_from true [] (data_frame_of wd))
    with (splitlines true (data_frame_of wd)).
  rewrite data_frame_lines, splitlines_frame_of.
  - apply (@read_frame_lines [b "data: " ++ wd]).
    + apply data_line_plain. exact Hp.
    + repeat constructor. discriminate.
    + discriminate.
  - apply Forall_app. split; [apply data_line_plain; exact Hp|].
    repeat constructor.
Qed.

Lemma feed_frames (ws : list bytes) :
  Forall (fun w => feed [] w = ([w], [])) ws ->
  feed [] (List.concat ws) = (ws, []).
Proof.
  induction 1 as [|w ws Hw _ IH]; [reflexivity|].
  cbn [List.concat]. rewrite ChunkProps.feed_app, Hw, IH. reflexivity.
Qed.

(** The relay is transparent on streams of one-line [data] frames: when
    the upstream body, in whatever chunks the response is iterated, is the
    UTF-8 text [data: d] + two newlines for a sequence of events whose data
    has no line break, [events] yields one event per frame with that data
    (and the defaults for [id], [event] and [retry]), and
    [stream_generate] yields the same texts again, in order. *)
Theorem relay_of_data_frames_transparent
  (es : list Event) (ws : list bytes) (resp : Response) :
  Forall (fun e => no_line_break (data e)) es ->
  Forall2 (fun e w => encode (emit e) = Some w) es ws ->
  List.concat (iter_content resp) = List.concat ws ->
  events (iter_content resp)
  = (map (fun e => Sample.message (data e)) es, Exhausted)
  /\ stream_generate resp = (map emit es, Exhausted).
Proof.
  intros Hd Hw.
  assert (Hframes : Forall2 (fun e w =>
              exists wd, encode (data e) = Some wd /\ w = data_frame_of wd
                         /\ Forall plain wd) es ws).
  { revert Hd. induction Hw as [|e w es ws Hew _ IH]; intros Hd; [constructor|].
    inversion Hd as [|? ? He Hes]; subst.
    constructor; [|exact (IH Hes)].
    destruct (emit_wire _ Hew) as (wd & Hwd & ->).
    exists wd. split; [exact Hwd|]. split; [reflexivity|].
    exact (encode_plain Hwd He). }
  intros Hc.
  assert (Hread : _read (iter_content resp) = ws).
  { unfold _read. rewrite ChunkProps.read_from_feed.
    - rewrite Hc, feed_frames; [unfold finish; simpl; apply app_nil_r|].
      clear Hc Hw Hd. induction Hframes as [|e w es ws (wd & _ & -> & Hp) _ IH];
        constructor; [apply feed_data_frame; exact Hp | exact IH].
    - cbn [app]. rewrite Hc. apply no_cr_no_crcrlf. apply Forall_concat.
      clear Hc Hw Hd. induction Hframes as [|e w es ws (wd & _ & -> & Hp) _ IH];
        constructor; [apply data_frame_no_cr; exact Hp | exact IH]. }
  assert (Hev : events (iter_content resp)
                = (map (fun e => Sample.message (data e)) es, Exhausted)).
  { unfold events. rewrite Hread. clear Hread Hc Hw.
    revert Hd. induction Hframes as [|e w es ws (wd & Hwd & -> & Hp) _ IH];
      intros Hd; [reflexivity|].
    inversion Hd as [|? ? He Hes]; subst.
    cbn [events_of map]. rewrite (event_of_data_frame Hwd He), (IH Hes).
    reflexivity. }
  split; [exact Hev|].
  unfold stream_generate. rewrite Hev, map_map. reflexivity.
Qed.

Lemma process_unknown_field (e : Event) (line : str) :
  EventClass.has_key (fst (split1 58 line)) = false -> process_line e line = e.
Proof.
  intros H. unfold process_line. cbv zeta. rewrite H.
  destruct (negb (nonempty (strip line)) || startswith line (u ":")); reflexivity.
Qed.

Lemma encode_nonempty (s : str) (bs : bytes) :
  encode s = Some bs -> s <> [] -> bs <> [].
Proof.
  destruct s as [|c s]; [contradiction|]. intros H _. rewrite encode_cons in H.
  destruct (encode_char c) as [x|] eqn:Ec; [|discriminate].
  destruct (encode s) as [y|]; [|discriminate].
  apply some_inj in H. subst bs.
  destruct (@encode_char_form c x Ec); subst; discriminate.
Qed.

(** Data of more than one line does not survive the relay: the text
    [stream_generate] writes for an event whose data is the two lines [d1]
    and [d2] (line 260 writes one [data:] prefix, whatever the data) is
    read by [events] as an event whose data is [d1] alone, when [d2] does
    not itself name a field. *)
Theorem relay_drops_second_data_line
  (e : Event) (d1 d2 : str) (wire : bytes) :
  data e = d1 ++ NL ++ d2 ->
  no_line_break d1 -> no_line_break d2 -> d2 <> [] ->
  EventClass.has_key (fst (split1 58 d2)) = false ->
  encode (emit e) = Some wire ->
  events [wire] = ([Sample.message d1], Exhausted).
Proof.
  intros Hdata H1 H2 Hne Hkey Hw.
  unfold emit in Hw. rewrite Hdata, !encode_app in Hw.
  change (encode (u "data: ")) with (Some (b "data: ")) in Hw.
  change (encode NL) with (Some [LF]) in Hw.
  destruct (encode d1) as [w1|] eqn:E1; [|discriminate].
  destruct (encode d2) as [w2|] eqn:E2; [|discriminate].
  apply some_inj in Hw. cbn [app] in Hw.
  pose proof (encode_plain E1 H1) as P1.
  pose proof (encode_plain E2 H2) as P2.
  pose proof (encode_nonempty E2 Hne) as N2.
  assert (Hlines : Forall (Forall plain) [b "data: " ++ w1; w2]).
  { constructor; [|constructor; [exact P2 | constructor]].
    apply Forall_app. split; [repeat constructor; discriminate | exact P1]. }
  assert (Hf : wire = Sample.frame_of ([b "data: " ++ w1; w2] ++ [[]])).
  { subst wire. unfold Sample.frame_of. cbn [app map List.concat].
    rewrite <- !app_assoc. reflexivity. }
  assert (Hall : Forall (Forall plain) ([b "data: " ++ w1; w2] ++ [[]])).
  { apply Forall_app. split; [exact Hlines | repeat constructor]. }
  assert (Hread : _read [wire] = [wire]).
  { unfold _read. cbn [read_from]. rewrite Hf at 1.
    rewrite (splitlines_frame_of true Hall).
    rewrite (@read_frame_lines [b "data: " ++ w1; w2] Hlines).
    - cbn [app nonempty]. rewrite Hf. reflexivity.
    - constructor; [discriminate|]. constructor; [exact N2 | constructor].
    - discriminate. }
  unfold events. rewrite Hread. cbn [events_of]. unfold event_of_chunk.
  rewrite Hf, (splitlines_frame_of false Hall).
  cbn [app map process_lines]. rewrite !app_nil_r.
  assert (Hl : decode (b "data: " ++ w1) = Some (u "data: " ++ d1)).
  { apply decode_encoded. rewrite encode_app, E1. reflexivity. }
  rewrite Hl, (@decode_encoded d2 w2 E2). cbn [decode].
  rewrite process_data_line, (@process_unknown_field _ d2 Hkey).
  cbn [option_map]. unfold dispatch.
  change (data (process_line _ [])) with ([] ++ (d1 ++ NL)).
  cbn [app].
  assert (Hn : nonempty (d1 ++ NL) = true) by (destruct d1; reflexivity).
  rewrite Hn, DecodeProps.str_endswith_app. cbn [negb].
  replace (drop_last (d1 ++ NL)) with d1
    by (symmetry; exact (removelast_last d1 10%N)).
  reflexivity.
Qed.

Lemma process_lines_app (l1 l2 : list bytes) :
  forall e,
    process_lines e (l1 ++ l2) =
    match process_lines e l1 with
    | Some e' => process_lines e' l2
    | None => None
    end.
Proof.
  induction l1 as [|l rest IH]; intros e; [reflexivity|].
  cbn [app process_lines]. destruct (decode l); [apply IH | reflexivity].
Qed.

Lemma process_comment (e : Event) (line : str) :
  startswith line (u ":") = true -> process_line e line = e.
Proof.
  intros H. unfold process_line. rewrite H, orb_true_r. reflexivity.
Qed.

Lemma map_app_nil {A} (ls : list (list A)) : map (fun l => l ++ []) ls = ls.
Proof.
  induction ls as [|l ls IH]; [reflexivity|].
  cbn [map]. rewrite app_nil_r, IH. reflexivity.
Qed.

(** A comment line, or a line that names none of [id], [event], [data],
    [retry], changes nothing: the frame with that line yields what the
    frame without it yields (frames written as lines ended by [\n]). *)
Theorem ignored_line_changes_nothing
  (before after : list bytes) (c : bytes) (line : str) :
  Forall (Forall plain) (before ++ c :: after) ->
  decode c = Some line ->
  startswith line (u ":") = true
  \/ EventClass.has_key (fst (split1 58 line)) = false ->
  event_of_chunk (Sample.frame_of (before ++ c :: after))
  = event_of_chunk (Sample.frame_of (before ++ after)).
Proof.
  intros Hp Hc Hign.
  assert (Hp' : Forall (Forall plain) (before ++ after)).
  { apply Forall_app in Hp. destruct Hp as [H1 H2]. inversion H2; subst.
    apply Forall_app. split; assumption. }
  unfold event_of_chunk.
  rewrite (splitlines_frame_of false Hp), (splitlines_frame_of false Hp').
  rewrite !map_app_nil, !process_lines_app.
  destruct (process_lines EventClass.init before) as [e|]; [|reflexivity].
  cbn [process_lines]. rewrite Hc.
  destruct Hign as [H|H].
  - rewrite (@process_comment e line H). reflexivity.
  - rewrite (@process_unknown_field e line H). reflexivity.
Qed.

(** A comment before the [data] line. *)
Lemma ignored_line_changes_nothing_witness :
  event_of_chunk (Sample.frame_of ([] ++ b ": this is ignored" :: [b "data: x"; []]))
  = Some (Some (Sample.message (u "x"))).
Proof.
  refine (eq_trans
            (@ignored_line_changes_nothing
               [] [b "data: x"; []] (b ": this is ignored")
               (u ": this is ignored") _ _ _) _).
  - repeat constructor; discriminate.
  - reflexivity.
  - left. reflexivity.
  - reflexivity.
Defined.

(** The two frames of the event-stream answer, iterated in three chunks. *)
Lemma relay_of_data_frames_transparent_witness :
  events (iter_content Fixture.sse_response)
  = ([Sample.message (u "A"); Sample.message (u "B")], Exhausted)
  /\ stream_generate Fixture.sse_response
     = ([u "data: A" ++ NL ++ NL; u "data: B" ++ NL ++ NL], Exhausted).
Proof.
  apply (@relay_of_data_frames_transparent
           [Sample.message (u "A"); Sample.message (u "B")]
           [Sample.data_frame "A"; Sample.data_frame "B"]
           Fixture.sse_response).
  - constructor; [|constructor; [|constructor]];
      (constructor; [split; discriminate | constructor]).
  - constructor; [reflexivity|]. constructor; [reflexivity | constructor].
  - reflexivity.
Defined.

(** The data [a], newline, [b]: relayed as [data: a\nb\n\n], read back
    as [a]. *)
Lemma relay_drops_second_data_line_witness :
  events [b "data: a" ++ [LF] ++ b "b" ++ [LF; LF]]
  = ([Sample.message (u "a")], Exhausted).
Proof.
  apply (@relay_drops_second_data_line
           (Sample.message (u "a" ++ NL ++ u "b")) (u "a") (u "b")
           (b "data: a" ++ [LF] ++ b "b" ++ [LF; LF])).
  - reflexivity.
  - constructor; [split; discriminate | constructor].
  - constructor; [split; discriminate | constructor].
  - discriminate.
  - reflexivity.
  - reflexivity.
Defined.

End RelayProps.
